(** * RTDM driver API and the RTIPC protocol device: a shallow embedding

    The development follows these sources of the tree:

    - [include/rtdm/rtdm_driver.h]: driver versioning macros, the device
      context with its lock counter, the task sleep wrapper and the inline
      event, semaphore and mutex services;
    - [ksrc/drivers/ipc/rtipc.c]: the RTIPC protocol device, its operation
      table, socket creation and close handlers;
    - [include/cobalt/kernel/heap.h]: the [xnmalloc] and [xnfree] macros.

    C integers are modelled as [Z]; where a C operation can wrap, the
    wrap-around is written out.  Kernel services that the header only
    declares are either parameters of a section or small models whose
    comment says where they come from. *)

From Stdlib Require Import ZArith Lia Bool List.
From stdpp Require Import base gmap list.

Local Open Scope Z_scope.

(** ** Linux error numbers (asm-generic/errno-base.h, errno.h) *)

Module Errno.
Definition EAGAIN          : Z := 11.
Definition ENOMEM          : Z := 12.
Definition EFAULT          : Z := 14.
Definition EINVAL          : Z := 22.
Definition ENOSYS          : Z := 38.
Definition ENOPROTOOPT     : Z := 92.
Definition EPROTONOSUPPORT : Z := 93.
End Errno.
Import Errno.

(** ** Driver versioning (rtdm_driver.h, lines 117-128) *)

Module Version.

(** [#define RTDM_DRIVER_VER(major, minor, patch)
      (((major & 0xFF) << 16) | ((minor & 0xFF) << 8) | (patch & 0xFF))] *)
Definition RTDM_DRIVER_VER (major minor patch : Z) : Z :=
  Z.lor (Z.lor (Z.shiftl (Z.land major 255) 16)
               (Z.shiftl (Z.land minor 255) 8))
        (Z.land patch 255).

(** [#define RTDM_DRIVER_MAJOR_VER(ver) (((ver) >> 16) & 0xFF)] *)
Definition RTDM_DRIVER_MAJOR_VER (ver : Z) : Z := Z.land (Z.shiftr ver 16) 255.

(** [#define RTDM_DRIVER_MINOR_VER(ver) (((ver) >> 8) & 0xFF)] *)
Definition RTDM_DRIVER_MINOR_VER (ver : Z) : Z := Z.land (Z.shiftr ver 8) 255.

(** [#define RTDM_DRIVER_PATCH_VER(ver) ((ver) & 0xFF)] *)
Definition RTDM_DRIVER_PATCH_VER (ver : Z) : Z := Z.land ver 255.

Example rtipc_driver_version : RTDM_DRIVER_VER 1 0 0 = 65536.
Proof. reflexivity. Qed.

Example ver_negative_major :
  RTDM_DRIVER_MAJOR_VER (RTDM_DRIVER_VER (-1) 258 515) = 255
  /\ RTDM_DRIVER_MINOR_VER (RTDM_DRIVER_VER (-1) 258 515) = 2
  /\ RTDM_DRIVER_PATCH_VER (RTDM_DRIVER_VER (-1) 258 515) = 3.
Proof. repeat split. Qed.

(** Bits of the mask [0xFF]. *)
Lemma testbit_0xFF (n : Z) : 0 <= n -> Z.testbit 255 n = (n <? 8).
Proof.
  intros Hn. change 255 with (Z.ones 8).
  destruct (Z.ltb_spec n 8).
  - apply Z.ones_spec_low; lia.
  - apply Z.ones_spec_high; lia.
Qed.

Lemma land_0xFF (x : Z) : Z.land x 255 = x mod 256.
Proof. change 255 with (Z.ones 8). rewrite Z.land_ones by lia. reflexivity. Qed.

(** One bit of a version code: the three fields sit in disjoint bytes. *)
Lemma RTDM_DRIVER_VER_testbit (major minor patch n : Z) :
  0 <= n ->
  Z.testbit (RTDM_DRIVER_VER major minor patch) n =
    if n <? 8 then Z.testbit patch n
    else if n <? 16 then Z.testbit minor (n - 8)
    else if n <? 24 then Z.testbit major (n - 16)
    else false.
Proof.
  intros Hn. unfold RTDM_DRIVER_VER.
  rewrite !Z.lor_spec, !Z.land_spec.
  rewrite !Z.shiftl_spec by lia. rewrite !Z.land_spec.
  rewrite (testbit_0xFF n) by lia.
  destruct (Z.ltb_spec n 8) as [H8|H8].
  - rewrite (Z.testbit_neg_r _ (n - 16)) by lia.
    rewrite (Z.testbit_neg_r _ (n - 8)) by lia.
    rewrite andb_true_r. reflexivity.
  - rewrite andb_false_r, orb_false_r.
    destruct (Z.ltb_spec n 16) as [H16|H16].
    + rewrite (Z.testbit_neg_r _ (n - 16)) by lia.
      rewrite (testbit_0xFF (n - 8)) by lia.
      replace (n - 8 <? 8) with true by (symmetry; apply Z.ltb_lt; lia).
      rewrite andb_true_r. reflexivity.
    + rewrite (testbit_0xFF (n - 8)) by lia.
      replace (n - 8 <? 8) with false by (symmetry; apply Z.ltb_ge; lia).
      rewrite andb_false_r, orb_false_r.
      rewrite (testbit_0xFF (n - 16)) by lia.
      destruct (Z.ltb_spec n 24) as [H24|H24].
      * replace (n - 16 <? 8) with true by (symmetry; apply Z.ltb_lt; lia).
        apply andb_true_r.
      * replace (n - 16 <? 8) with false by (symmetry; apply Z.ltb_ge; lia).
        apply andb_false_r.
Qed.

(** For all integer values of the three fields, the version code is a
    24-bit value: building it never overflows an [int].  (The macro pastes
    its parameters without parentheses; the statement is about argument
    values, that is, arguments that are single operands or parenthesised.) *)
Lemma RTDM_DRIVER_VER_range (major minor patch : Z) :
  0 <= RTDM_DRIVER_VER major minor patch < 2 ^ 24.
Proof.
  assert (Hnn : 0 <= RTDM_DRIVER_VER major minor patch).
  { unfold RTDM_DRIVER_VER. rewrite !Z.lor_nonneg, !Z.shiftl_nonneg, !land_0xFF.
    repeat split; apply Z.mod_pos_bound; lia. }
  split; [exact Hnn|].
  destruct (Z.eq_dec (RTDM_DRIVER_VER major minor patch) 0) as [->|Hz]; [lia|].
  apply Z.log2_lt_pow2; [lia|].
  destruct (Z.lt_ge_cases (Z.log2 (RTDM_DRIVER_VER major minor patch)) 24)
    as [Hlt|Hge]; [exact Hlt|exfalso].
  assert (Hb := Z.bit_log2 (RTDM_DRIVER_VER major minor patch) ltac:(lia)).
  rewrite RTDM_DRIVER_VER_testbit in Hb by lia.
  repeat match type of Hb with
         | context [?a <? ?b] => destruct (Z.ltb_spec a b); try lia
         end;
    try discriminate.
Qed.

(** C9.  Decoding a version code built by [RTDM_DRIVER_VER] gives back each
    field reduced modulo 256: the major, minor and patch accessors return
    [major mod 256], [minor mod 256] and [patch mod 256], for all integers. *)
Theorem RTDM_DRIVER_VER_roundtrip (major minor patch : Z) :
  RTDM_DRIVER_MAJOR_VER (RTDM_DRIVER_VER major minor patch) = major mod 256
  /\ RTDM_DRIVER_MINOR_VER (RTDM_DRIVER_VER major minor patch) = minor mod 256
  /\ RTDM_DRIVER_PATCH_VER (RTDM_DRIVER_VER major minor patch) = patch mod 256.
Proof.
  unfold RTDM_DRIVER_MAJOR_VER, RTDM_DRIVER_MINOR_VER, RTDM_DRIVER_PATCH_VER.
  rewrite <- !land_0xFF.
  repeat split; apply Z.bits_inj'; intros n Hn;
    rewrite !Z.land_spec, ?Z.shiftr_spec by lia;
    rewrite RTDM_DRIVER_VER_testbit by lia;
    rewrite testbit_0xFF by lia;
    destruct (Z.ltb_spec n 8);
    rewrite ?andb_false_r, ?andb_true_r; try reflexivity;
    repeat match goal with
           | |- context [?a <? ?b] => destruct (Z.ltb_spec a b); try lia
           end;
    f_equal; lia.
Qed.

End Version.

(** ** Task sleep services (rtdm_driver.h, lines 984-993 and 1111-1129) *)

Module Task.

(** The scheduler behind [__rtdm_task_sleep] is not part of the header: the
    model keeps the list of sleep requests that reached it, most recent
    first.  Each request is the pair (timeout, mode) as the service sees it. *)
Record sched := mk_sched { sleep_calls : list (Z * Z) }.

Section Sleep.

(** Enumerators of [xntmode_t] (nucleus headers, outside the two sources):
    [enum rtdm_timer_mode] takes their values. *)
Variables XN_RELATIVE XN_ABSOLUTE XN_REALTIME : Z.

Definition RTDM_TIMERMODE_RELATIVE : Z := XN_RELATIVE.
Definition RTDM_TIMERMODE_ABSOLUTE : Z := XN_ABSOLUTE.
Definition RTDM_TIMERMODE_REALTIME : Z := XN_REALTIME.

(** Return code the nucleus gives to a sleep request (0, [-EINTR], ...). *)
Variable sleep_outcome : Z -> Z -> Z.

(** [int __rtdm_task_sleep(xnticks_t timeout, xntmode_t mode)], declared
    only: it records the request and returns the nucleus' code. *)
Definition __rtdm_task_sleep (timeout mode : Z) (s : sched) : Z * sched :=
  (sleep_outcome timeout mode, mk_sched ((timeout, mode) :: sleep_calls s)).

(** Conversion to [xnticks_t], an unsigned 64-bit integer: a signed
    [nanosecs_rel_t] argument is reduced modulo [2 ^ 64]. *)
Definition to_xnticks (z : Z) : Z := z mod 2 ^ 64.

(** [rtdm_task_sleep(delay)]: [return __rtdm_task_sleep(delay, XN_RELATIVE);]
    where [delay] is a signed [nanosecs_rel_t] and the parameter it is passed
    to is an [xnticks_t]. *)
Definition rtdm_task_sleep (delay : Z) (s : sched) : Z * sched :=
  __rtdm_task_sleep (to_xnticks delay) XN_RELATIVE s.

(** [rtdm_task_sleep_abs(wakeup_date, mode)]:
    [if (mode != RTDM_TIMERMODE_ABSOLUTE && mode != RTDM_TIMERMODE_REALTIME)
       return -EINVAL;
     return __rtdm_task_sleep(wakeup_date, (xntmode_t)mode);] *)
Definition rtdm_task_sleep_abs (wakeup_date mode : Z) (s : sched) : Z * sched :=
  if negb (mode =? RTDM_TIMERMODE_ABSOLUTE) && negb (mode =? RTDM_TIMERMODE_REALTIME)
  then (- EINVAL, s)
  else __rtdm_task_sleep wakeup_date mode s.

(** [rtdm_task_sleep_until(wakeup_time)] (deprecated) *)
Definition rtdm_task_sleep_until (wakeup_time : Z) (s : sched) : Z * sched :=
  __rtdm_task_sleep wakeup_time XN_REALTIME s.

Lemma rtdm_task_sleep_abs_rejects (wakeup_date mode : Z) (s : sched) :
  mode <> RTDM_TIMERMODE_ABSOLUTE -> mode <> RTDM_TIMERMODE_REALTIME ->
  rtdm_task_sleep_abs wakeup_date mode s = (- EINVAL, s).
Proof.
  intros Ha Hr. unfold rtdm_task_sleep_abs.
  destruct (Z.eqb_spec mode RTDM_TIMERMODE_ABSOLUTE); [contradiction|].
  destruct (Z.eqb_spec mode RTDM_TIMERMODE_REALTIME); [contradiction|].
  reflexivity.
Qed.

Lemma rtdm_task_sleep_abs_delegates (wakeup_date mode : Z) (s : sched) :
  mode = RTDM_TIMERMODE_ABSOLUTE \/ mode = RTDM_TIMERMODE_REALTIME ->
  rtdm_task_sleep_abs wakeup_date mode s = __rtdm_task_sleep wakeup_date mode s.
Proof.
  intros H. unfold rtdm_task_sleep_abs.
  destruct (Z.eqb_spec mode RTDM_TIMERMODE_ABSOLUTE) as [|Ha]; [reflexivity|].
  destruct (Z.eqb_spec mode RTDM_TIMERMODE_REALTIME) as [|Hr]; [reflexivity|].
  destruct H; contradiction.
Qed.

(** C10.  [rtdm_task_sleep_abs] returns [-EINVAL] and leaves the scheduler
    untouched (no sleep request is issued) for every mode other than
    [RTDM_TIMERMODE_ABSOLUTE] and [RTDM_TIMERMODE_REALTIME]; the relative
    mode, being a third enumerator, is among them.  For the two absolute
    modes the call is exactly [__rtdm_task_sleep wakeup_date mode]: one
    request reaches the service, carrying the date and the mode unchanged,
    and its return code is passed back. *)
Theorem rtdm_task_sleep_abs_spec (wakeup_date mode : Z) (s : sched) :
  XN_RELATIVE <> XN_ABSOLUTE -> XN_RELATIVE <> XN_REALTIME ->
  (mode <> RTDM_TIMERMODE_ABSOLUTE -> mode <> RTDM_TIMERMODE_REALTIME ->
     rtdm_task_sleep_abs wakeup_date mode s = (- EINVAL, s))
  /\ rtdm_task_sleep_abs wakeup_date RTDM_TIMERMODE_RELATIVE s = (- EINVAL, s)
  /\ (mode = RTDM_TIMERMODE_ABSOLUTE \/ mode = RTDM_TIMERMODE_REALTIME ->
        rtdm_task_sleep_abs wakeup_date mode s
          = (sleep_outcome wakeup_date mode,
             mk_sched ((wakeup_date, mode) :: sleep_calls s))).
Proof.
  intros Hra Hrr. split; [|split].
  - apply rtdm_task_sleep_abs_rejects.
  - apply rtdm_task_sleep_abs_rejects; assumption.
  - intros H. rewrite rtdm_task_sleep_abs_delegates by exact H. reflexivity.
Qed.

End Sleep.

(** The theorem at the nucleus' enumerator values 0, 1, 2, on a scheduler
    that already served one request: an absolute sleep is forwarded, a
    relative one and an out-of-range mode are refused. *)
Lemma rtdm_task_sleep_abs_spec_witness :
  let s := mk_sched [(5, 0)] in
  rtdm_task_sleep_abs 1 2 (fun _ _ => 0) 1000 7 s = (- EINVAL, s)
  /\ rtdm_task_sleep_abs 1 2 (fun _ _ => 0) 1000 (RTDM_TIMERMODE_RELATIVE 0) s
       = (- EINVAL, s)
  /\ rtdm_task_sleep_abs 1 2 (fun _ _ => 0) 1000 2 s
       = (0, mk_sched [(1000, 2); (5, 0)]).
Proof.
  intros s.
  destruct (rtdm_task_sleep_abs_spec 0 1 2 (fun _ _ => 0) 1000 7 s
              ltac:(discriminate) ltac:(discriminate)) as (H1 & H2 & _).
  destruct (rtdm_task_sleep_abs_spec 0 1 2 (fun _ _ => 0) 1000 2 s
              ltac:(discriminate) ltac:(discriminate)) as (_ & _ & H3).
  split; [|split].
  - apply H1; discriminate.
  - exact H2.
  - apply H3. right. reflexivity.
Defined.

End Task.

(** ** Operation table (rtdm_driver.h, lines 338-381) *)

Module Ops.

(** [struct rtdm_operations].  A handler pointer is an optional handler of
    some type [H]; [None] is the [NULL] pointer. *)
Record rtdm_operations (H : Type) := mk_operations {
  close_rt : option H;
  close_nrt : option H;
  ioctl_rt : option H;
  ioctl_nrt : option H;
  select_bind : option H;
  read_rt : option H;
  read_nrt : option H;
  write_rt : option H;
  write_nrt : option H;
  recvmsg_rt : option H;
  recvmsg_nrt : option H;
  sendmsg_rt : option H;
  sendmsg_nrt : option H
}.

Arguments mk_operations {H}.
Arguments close_rt {H}. Arguments close_nrt {H}.
Arguments ioctl_rt {H}. Arguments ioctl_nrt {H}.
Arguments select_bind {H}.
Arguments read_rt {H}. Arguments read_nrt {H}.
Arguments write_rt {H}. Arguments write_nrt {H}.
Arguments recvmsg_rt {H}. Arguments recvmsg_nrt {H}.
Arguments sendmsg_rt {H}. Arguments sendmsg_nrt {H}.

(** A table with every entry [NULL] (static storage, nothing initialised). *)
Definition no_operations {H : Type} : rtdm_operations H :=
  mk_operations None None None None None None None None None None None None None.

End Ops.
Import Ops.

(** ** Device context and its lock counter (rtdm_driver.h, lines 86-100,
       399-435 and 571-597) *)

Module Context.

(** Context flags are bit numbers. *)
Definition RTDM_CREATED_IN_NRT : Z := 0.
Definition RTDM_CLOSING : Z := 1.
Definition RTDM_USER_CONTEXT_FLAG : Z := 8.

(** [struct rtdm_dev_context]; [device] and [reserved] are links into the
    registry and are left out, [dev_private] is the driver's trailing area. *)
Record rtdm_dev_context (H P : Type) := mk_context {
  context_flags : Z;
  fd : Z;
  close_lock_count : Z;
  ops : rtdm_operations H;
  dev_private : P
}.

Arguments mk_context {H P}.
Arguments context_flags {H P}.
Arguments fd {H P}.
Arguments close_lock_count {H P}.
Arguments ops {H P}.
Arguments dev_private {H P}.

(** [rtdm_context_to_private(context)] *)
Definition rtdm_context_to_private {H P} (context : rtdm_dev_context H P) : P :=
  dev_private context.

Definition set_close_lock_count {H P} (v : Z) (c : rtdm_dev_context H P) :=
  mk_context (context_flags c) (fd c) v (ops c) (dev_private c).

Definition set_context_flags {H P} (f : Z) (c : rtdm_dev_context H P) :=
  mk_context f (fd c) (close_lock_count c) (ops c) (dev_private c).

Definition set_dev_private {H P} (p : P) (c : rtdm_dev_context H P) :=
  mk_context (context_flags c) (fd c) (close_lock_count c) (ops c) p.

(** *** Kernel primitives used by the inline functions *)

(** [atomic_t] holds an [int]; the kernel's atomic arithmetic wraps around
    in two's complement. *)
Definition INT_MAX : Z := 2 ^ 31 - 1.
Definition wrap_int (z : Z) : Z := (z + 2 ^ 31) mod 2 ^ 32 - 2 ^ 31.

Definition atomic_read (v : Z) : Z := v.
Definition atomic_inc (v : Z) : Z := wrap_int (v + 1).
(** Decrements and tells whether the result is zero. *)
Definition atomic_dec_and_test (v : Z) : Z * bool :=
  let v' := wrap_int (v - 1) in (v', v' =? 0).

(** [test_bit(nr, addr)], [set_bit(nr, addr)] on an [unsigned long]. *)
Definition test_bit (nr word : Z) : bool := Z.testbit word nr.
Definition set_bit (nr word : Z) : Z := Z.lor word (Z.shiftl 1 nr).

(** What the inline functions do to the rest of the kernel: the APC numbers
    handed to [rthal_apc_schedule], most recent first, and the number of
    failed [XENO_ASSERT] checks that were logged. *)
Record kernel := mk_kernel {
  apc_requests : list Z;
  assert_warnings : nat
}.

Definition rthal_apc_schedule (apc : Z) (k : kernel) : kernel :=
  mk_kernel (apc :: apc_requests k) (assert_warnings k).

Section Lifecycle.

Context {H P : Type}.

(** [CONFIG_XENO_OPT_DEBUG_RTDM] (0 unless configured) and the APC number
    [extern int rtdm_apc]. *)
Variable CONFIG_XENO_OPT_DEBUG_RTDM : Z.
Variable rtdm_apc : Z.

(** [XENO_ASSERT(RTDM, cond, action)] of nucleus/assert.h, which is not
    among the sources, with the empty action both call sites pass: when the
    debug switch is on, a failed check is logged; nothing else happens. *)
Definition XENO_ASSERT (cond : bool) (k : kernel) : kernel :=
  if (CONFIG_XENO_OPT_DEBUG_RTDM >? 0) && negb cond
  then mk_kernel (apc_requests k) (S (assert_warnings k))
  else k.

(** [CONTEXT_IS_LOCKED(context)] *)
Definition CONTEXT_IS_LOCKED (context : rtdm_dev_context H P) : bool :=
  (atomic_read (close_lock_count context) >? 1)
  || (test_bit RTDM_CLOSING (context_flags context)
      && (atomic_read (close_lock_count context) >? 0)).

(** [rtdm_context_lock(context)]:
    [XENO_ASSERT(RTDM, CONTEXT_IS_LOCKED(context), );
     atomic_inc(&context->close_lock_count);] *)
Definition rtdm_context_lock (context : rtdm_dev_context H P) (k : kernel)
  : rtdm_dev_context H P * kernel :=
  let k := XENO_ASSERT (CONTEXT_IS_LOCKED context) k in
  (set_close_lock_count (atomic_inc (close_lock_count context)) context, k).

(** [rtdm_context_unlock(context)]:
    [XENO_ASSERT(RTDM, CONTEXT_IS_LOCKED(context), );
     smp_mb__before_atomic_dec();
     if (unlikely(atomic_dec_and_test(&context->close_lock_count)))
       rthal_apc_schedule(rtdm_apc);]
    The barrier orders memory accesses and has no effect of its own. *)
Definition rtdm_context_unlock (context : rtdm_dev_context H P) (k : kernel)
  : rtdm_dev_context H P * kernel :=
  let k := XENO_ASSERT (CONTEXT_IS_LOCKED context) k in
  let '(v, zero) := atomic_dec_and_test (close_lock_count context) in
  let context := set_close_lock_count v context in
  if zero then (context, rthal_apc_schedule rtdm_apc k) else (context, k).

(** [rtdm_context_put(context)] *)
Definition rtdm_context_put (context : rtdm_dev_context H P) (k : kernel)
  : rtdm_dev_context H P * kernel :=
  rtdm_context_unlock context k.

(** Modelled from the spec: the close request of the core (its code is
    not in the header).  "Sets the closing flag, then performs one unlock
    (dropping the baseline reference acquired at open)." *)
Definition request_close (context : rtdm_dev_context H P) (k : kernel)
  : rtdm_dev_context H P * kernel :=
  rtdm_context_unlock
    (set_context_flags (set_bit RTDM_CLOSING (context_flags context)) context) k.

(** Number of deferred finalizations requested between two kernel states. *)
Definition scheduled (k k' : kernel) : nat :=
  (length (apc_requests k') - length (apc_requests k))%nat.

(** *** Sequences of operations on one context *)

Inductive ctx_op := OpLock | OpUnlock | OpRequestClose.

Definition ctx_op_eqb (a b : ctx_op) : bool :=
  match a, b with
  | OpLock, OpLock | OpUnlock, OpUnlock | OpRequestClose, OpRequestClose => true
  | _, _ => false
  end.

Definition cstate : Type := rtdm_dev_context H P * kernel.

Definition step (o : ctx_op) (st : cstate) : cstate :=
  match o with
  | OpLock => rtdm_context_lock (fst st) (snd st)
  | OpUnlock => rtdm_context_unlock (fst st) (snd st)
  | OpRequestClose => request_close (fst st) (snd st)
  end.

Fixpoint run (l : list ctx_op) (st : cstate) : cstate :=
  match l with
  | [] => st
  | o :: l => run l (step o st)
  end.

(** Every state the context goes through, the first one included. *)
Fixpoint history (l : list ctx_op) (st : cstate) : list cstate :=
  st :: match l with
        | [] => []
        | o :: l => history l (step o st)
        end.

(** Each operation with the state before and after it. *)
Fixpoint transitions (l : list ctx_op) (st : cstate) : list (cstate * cstate) :=
  match l with
  | [] => []
  | o :: l => (st, step o st) :: transitions l (step o st)
  end.

Fixpoint close_requests (l : list ctx_op) : nat :=
  match l with
  | [] => 0%nat
  | o :: l => ((if ctx_op_eqb o OpRequestClose then 1 else 0) + close_requests l)%nat
  end.

(** Number of locks and of unlocks in a sequence. *)
Fixpoint locks (l : list ctx_op) : Z :=
  match l with
  | [] => 0
  | OpLock :: l => 1 + locks l
  | _ :: l => locks l
  end.

Fixpoint unlocks (l : list ctx_op) : Z :=
  match l with
  | [] => 0
  | OpUnlock :: l => 1 + unlocks l
  | _ :: l => unlocks l
  end.

(** A transition that requests finalization takes the lock count from 1
    to 0 with the closing flag set. *)
Definition final_transition (t : cstate * cstate) : Prop :=
  close_lock_count (fst (fst t)) = 1
  /\ close_lock_count (fst (snd t)) = 0
  /\ test_bit RTDM_CLOSING (context_flags (fst (snd t))) = true.

(** The caller discipline: a lock is taken on a context that is still in
    use (and whose counter has room), an unlock is issued on a locked
    context, which is the check [rtdm_context_unlock] asserts. *)
Definition allowed (o : ctx_op) (st : cstate) : bool :=
  match o with
  | OpLock => (0 <? close_lock_count (fst st))
              && (close_lock_count (fst st) <? INT_MAX)
  | OpUnlock => CONTEXT_IS_LOCKED (fst st)
  | OpRequestClose => true
  end.

Fixpoint disciplined (l : list ctx_op) (st : cstate) : bool :=
  match l with
  | [] => true
  | o :: l => allowed o st && disciplined l (step o st)
  end.

(** *** Basic facts *)

Definition in_int (z : Z) : Prop := - 2 ^ 31 <= z <= INT_MAX.

Lemma wrap_int_small (z : Z) : in_int z -> wrap_int z = z.
Proof.
  unfold in_int, INT_MAX, wrap_int. intros Hz.
  rewrite Z.mod_small by lia. lia.
Qed.

Lemma wrap_int_range (z : Z) : in_int (wrap_int z).
Proof.
  unfold in_int, INT_MAX, wrap_int.
  pose proof (Z.mod_pos_bound (z + 2 ^ 31) (2 ^ 32) ltac:(lia)). lia.
Qed.

(** Within [int], only 1 is decremented to 0. *)
Lemma wrap_dec_zero (z : Z) : in_int z -> wrap_int (z - 1) = 0 <-> z = 1.
Proof.
  intros Hz. split.
  - intros Hw. destruct (Z.eq_dec z (- 2 ^ 31)) as [->|Hne].
    + vm_compute in Hw. discriminate.
    + rewrite wrap_int_small in Hw by (unfold in_int, INT_MAX in *; lia). lia.
  - intros ->. reflexivity.
Qed.

Lemma apc_requests_XENO_ASSERT (b : bool) (k : kernel) :
  apc_requests (XENO_ASSERT b k) = apc_requests k.
Proof. unfold XENO_ASSERT. destruct (_ && _); reflexivity. Qed.

Lemma rtdm_context_unlock_eq (c : rtdm_dev_context H P) (k : kernel) :
  rtdm_context_unlock c k =
    (set_close_lock_count (wrap_int (close_lock_count c - 1)) c,
     if wrap_int (close_lock_count c - 1) =? 0
     then rthal_apc_schedule rtdm_apc (XENO_ASSERT (CONTEXT_IS_LOCKED c) k)
     else XENO_ASSERT (CONTEXT_IS_LOCKED c) k).
Proof.
  unfold rtdm_context_unlock, atomic_dec_and_test.
  destruct (wrap_int (close_lock_count c - 1) =? 0); reflexivity.
Qed.

Lemma scheduled_unlock (c : rtdm_dev_context H P) (k : kernel) :
  scheduled k (snd (rtdm_context_unlock c k)) =
    if wrap_int (close_lock_count c - 1) =? 0 then 1%nat else 0%nat.
Proof.
  rewrite rtdm_context_unlock_eq. unfold scheduled. cbn [snd].
  destruct (wrap_int (close_lock_count c - 1) =? 0);
    cbn [rthal_apc_schedule apc_requests length];
    rewrite apc_requests_XENO_ASSERT; lia.
Qed.

Lemma test_bit_set_bit (flags : Z) :
  test_bit RTDM_CLOSING (set_bit RTDM_CLOSING flags) = true.
Proof.
  unfold test_bit, set_bit, RTDM_CLOSING.
  rewrite Z.lor_spec. change (Z.shiftl 1 1) with 2.
  change (Z.testbit 2 1) with true. apply orb_true_r.
Qed.

Lemma rtdm_context_put_eq (c : rtdm_dev_context H P) (k : kernel) :
  rtdm_context_put c k = rtdm_context_unlock c k.
Proof. reflexivity. Qed.

(** *** The unlock contract *)

(** The sentence of the specification, read on one call: finalization is
    requested exactly when the new count is zero and the closing flag is
    set, and never when the count reaches zero with the flag clear. *)
Definition unlock_as_specified (c : rtdm_dev_context H P) (k : kernel) : Prop :=
  let c' := fst (rtdm_context_unlock c k) in
  let k' := snd (rtdm_context_unlock c k) in
  (scheduled k k' = 1%nat <->
     close_lock_count c' = 0 /\ test_bit RTDM_CLOSING (context_flags c') = true)
  /\ (close_lock_count c' = 0 ->
      test_bit RTDM_CLOSING (context_flags c') = false ->
      scheduled k k' = 0%nat).

(** C1 (amended).  [rtdm_context_unlock], and [rtdm_context_put] which is
    the same function, decrements the lock count, leaves
    the flags alone and requests the deferred finalization if and only if
    the new count is zero; the closing flag is not looked at.  On a context
    that passes the [CONTEXT_IS_LOCKED] check the function asserts, a zero
    result implies the closing flag, so there finalization is requested if
    and only if the new count is zero and the flag is set. *)
Theorem rtdm_context_unlock_spec (c : rtdm_dev_context H P) (k : kernel) :
  in_int (close_lock_count c) ->
  let c' := fst (rtdm_context_unlock c k) in
  let k' := snd (rtdm_context_unlock c k) in
  rtdm_context_put c k = rtdm_context_unlock c k
  /\ close_lock_count c' = wrap_int (close_lock_count c - 1)
  /\ context_flags c' = context_flags c
  /\ (scheduled k k' = 1%nat <-> close_lock_count c' = 0)
  /\ (close_lock_count c' <> 0 -> scheduled k k' = 0%nat)
  /\ (CONTEXT_IS_LOCKED c = true ->
      close_lock_count c' = close_lock_count c - 1
      /\ (scheduled k k' = 1%nat <->
            close_lock_count c' = 0
            /\ test_bit RTDM_CLOSING (context_flags c') = true)).
Proof.
  intros Hint c' k'.
  assert (Hc' : close_lock_count c' = wrap_int (close_lock_count c - 1)).
  { subst c'. rewrite rtdm_context_unlock_eq. reflexivity. }
  assert (Hf : context_flags c' = context_flags c).
  { subst c'. rewrite rtdm_context_unlock_eq. reflexivity. }
  assert (Hs : scheduled k k' =
               if close_lock_count c' =? 0 then 1%nat else 0%nat).
  { subst k'. rewrite scheduled_unlock, Hc'. reflexivity. }
  split; [reflexivity|]. split; [exact Hc'|]. split; [exact Hf|].
  split; [|split].
  - rewrite Hs. destruct (Z.eqb_spec (close_lock_count c') 0); split;
      intros; congruence.
  - intros Hnz. rewrite Hs.
    destruct (Z.eqb_spec (close_lock_count c') 0); congruence.
  - intros Hlocked. unfold CONTEXT_IS_LOCKED, atomic_read in Hlocked.
    assert (Hpos : 0 < close_lock_count c).
    { apply orb_true_iff in Hlocked as [Hl|Hl].
      - apply Z.gtb_lt in Hl. lia.
      - apply andb_true_iff in Hl as [_ Hl]. apply Z.gtb_lt in Hl. lia. }
    assert (Hdec : close_lock_count c' = close_lock_count c - 1).
    { rewrite Hc'. apply wrap_int_small.
      unfold in_int, INT_MAX in *. lia. }
    split; [exact Hdec|].
    rewrite Hs, Hf. destruct (Z.eqb_spec (close_lock_count c') 0) as [Hz|Hz].
    + split; [intros _|reflexivity]. split; [exact Hz|].
      apply orb_true_iff in Hlocked as [Hl|Hl].
      * apply Z.gtb_lt in Hl. lia.
      * apply andb_true_iff in Hl as [Hl _]. exact Hl.
    + split; [discriminate|]. intros [Hz' _]. contradiction.
Qed.

(** *** One close request among locks and unlocks *)

(** The sentence of the specification, read on one sequence run from the
    state [st]: the count is never negative, finalization is requested
    exactly once, and only by a transition from 1 to 0 under the closing
    flag. *)
Definition lifecycle_as_specified (l : list ctx_op) (st : cstate) : Prop :=
  Forall (fun s => 0 <= close_lock_count (fst s)) (history l st)
  /\ scheduled (snd st) (snd (run l st)) = 1%nat
  /\ Forall (fun t => scheduled (snd (fst t)) (snd (snd t)) <> 0%nat ->
                      final_transition t)
            (transitions l st).

(** State invariant: [b] tells whether the close request has been made. *)
Definition lifecycle_inv (b : bool) (c : rtdm_dev_context H P) : Prop :=
  test_bit RTDM_CLOSING (context_flags c) = b
  /\ (if b then 0 else 1) <= close_lock_count c <= INT_MAX.

Lemma step_lifecycle_inv (o : ctx_op) (c : rtdm_dev_context H P) (k : kernel)
      (b : bool) :
  lifecycle_inv b c -> 0 < close_lock_count c ->
  allowed o (c, k) = true ->
  (ctx_op_eqb o OpRequestClose = true -> b = false) ->
  lifecycle_inv (b || ctx_op_eqb o OpRequestClose) (fst (step o (c, k)))
  /\ length (apc_requests (snd (step o (c, k)))) =
       (length (apc_requests k)
        + if (close_lock_count (fst (step o (c, k))) =? 0)%Z then 1 else 0)%nat
  /\ (close_lock_count (fst (step o (c, k))) = 0 ->
      final_transition ((c, k), step o (c, k))).
Proof.
  intros [Hflag Hrange] Hpos Hallowed Hclose.
  unfold lifecycle_inv, final_transition.
  destruct o; cbn [step fst snd allowed ctx_op_eqb] in *.
  - (* lock *)
    apply andb_true_iff in Hallowed as [_ Hroom]. apply Z.ltb_lt in Hroom.
    unfold rtdm_context_lock, atomic_inc. cbn [fst snd].
    cbn [set_close_lock_count close_lock_count context_flags].
    rewrite wrap_int_small by (unfold in_int, INT_MAX in *; lia).
    rewrite apc_requests_XENO_ASSERT, orb_false_r.
    replace (close_lock_count c + 1 =? 0) with false
      by (symmetry; apply Z.eqb_neq; lia).
    repeat split; try assumption; try lia; destruct b; lia.
  - (* unlock *)
    rewrite rtdm_context_unlock_eq. cbn [fst snd].
    cbn [set_close_lock_count close_lock_count context_flags].
    rewrite wrap_int_small by (unfold in_int, INT_MAX in *; destruct b; lia).
    rewrite orb_false_r.
    assert (Hlow : (if b then 0 else 1) <= close_lock_count c - 1).
    { destruct b; [lia|].
      unfold CONTEXT_IS_LOCKED, atomic_read in Hallowed.
      rewrite Hflag in Hallowed. cbn [andb] in Hallowed.
      rewrite orb_false_r in Hallowed. apply Z.gtb_lt in Hallowed. lia. }
    split; [split; [assumption|lia]|]. split.
    + destruct (close_lock_count c - 1 =? 0);
        cbn [rthal_apc_schedule apc_requests length];
        rewrite apc_requests_XENO_ASSERT; lia.
    + intros Hz. destruct b; [|lia]. repeat split; try assumption; lia.
  - (* close request *)
    destruct b; [specialize (Hclose eq_refl); discriminate|].
    unfold request_close. rewrite rtdm_context_unlock_eq. cbn [fst snd].
    cbn [set_close_lock_count set_context_flags close_lock_count context_flags].
    rewrite wrap_int_small by (unfold in_int, INT_MAX in *; lia).
    rewrite test_bit_set_bit. cbn [orb].
    split; [split; [reflexivity|lia]|]. split.
    + destruct (close_lock_count c - 1 =? 0);
        cbn [rthal_apc_schedule apc_requests length];
        rewrite apc_requests_XENO_ASSERT; lia.
    + intros Hz. repeat split; try reflexivity; lia.
Qed.

(** Once the count is zero no further operation is allowed. *)
Lemma disciplined_at_zero (l : list ctx_op) (c : rtdm_dev_context H P)
      (k : kernel) :
  close_lock_count c = 0 -> close_requests l = 0%nat ->
  disciplined l (c, k) = true -> l = [].
Proof.
  intros Hz Hn Hd. destruct l as [|o l]; [reflexivity|exfalso].
  cbn [disciplined close_requests] in *.
  apply andb_true_iff in Hd as [Ha _].
  destruct o; cbn [allowed fst ctx_op_eqb] in *.
  - rewrite Hz in Ha. discriminate.
  - unfold CONTEXT_IS_LOCKED, atomic_read in Ha. rewrite Hz in Ha.
    cbn in Ha. rewrite andb_false_r in Ha. discriminate.
  - discriminate.
Qed.

Lemma run_lifecycle_inv (l : list ctx_op) :
  forall (c : rtdm_dev_context H P) (k : kernel) (b : bool),
    lifecycle_inv b c ->
    close_requests l = (if b then 0 else 1)%nat ->
    disciplined l (c, k) = true ->
    Forall (fun s => 0 <= close_lock_count (fst s)) (history l (c, k))
    /\ Forall (fun t => scheduled (snd (fst t)) (snd (snd t)) <> 0%nat ->
                        final_transition t)
              (transitions l (c, k))
    /\ length (apc_requests (snd (run l (c, k)))) =
         (length (apc_requests k)
          + if ((0 <? close_lock_count c)
                && (close_lock_count (fst (run l (c, k))) =? 0))%Z
            then 1 else 0)%nat.
Proof.
  induction l as [|o l IH]; intros c k b Hinv Hn Hd.
  - cbn [history transitions run fst snd].
    assert (0 <= close_lock_count c) by (destruct Hinv as [_ ?]; destruct b; lia).
    split; [repeat constructor; assumption|]. split; [constructor|].
    destruct (Z.ltb_spec 0 (close_lock_count c)) as [Hp|Hp]; cbn [andb]; [|lia].
    replace (close_lock_count c =? 0) with false
      by (symmetry; apply Z.eqb_neq; lia).
    lia.
  - assert (Hpos : 0 < close_lock_count c).
    { destruct (Z.eq_dec (close_lock_count c) 0) as [Hz|Hz].
      - destruct b.
        + pose proof (disciplined_at_zero (o :: l) c k Hz Hn Hd). discriminate.
        + destruct Hinv as [_ ?]. lia.
      - destruct Hinv as [_ ?]. destruct b; lia. }
    cbn [disciplined] in Hd. apply andb_true_iff in Hd as [Ha Hd].
    cbn [close_requests] in Hn.
    assert (Hclose : ctx_op_eqb o OpRequestClose = true -> b = false).
    { intros He. rewrite He in Hn. destruct b; [discriminate|reflexivity]. }
    destruct (step_lifecycle_inv o c k b Hinv Hpos Ha Hclose)
      as (Hinv' & Hlen & Hfinal).
    assert (Hn' : close_requests l =
                  (if b || ctx_op_eqb o OpRequestClose then 0 else 1)%nat).
    { destruct (ctx_op_eqb o OpRequestClose) eqn:He.
      - rewrite (Hclose eq_refl) in *. cbn [orb]. lia.
      - rewrite orb_false_r. destruct b; lia. }
    destruct (step o (c, k)) as [c' k'] eqn:Hstep. cbn [fst snd] in *.
    destruct (IH c' k' _ Hinv' Hn' Hd) as (Hhist & Htrans & Hlen').
    cbn [history transitions run]. rewrite Hstep.
    split; [constructor; [cbn [fst]; lia|exact Hhist]|].
    split.
    + constructor; [|exact Htrans]. cbn [fst snd]. unfold scheduled.
      intros Hs. apply Hfinal.
      destruct (Z.eqb_spec (close_lock_count c') 0); [assumption|lia].
    + rewrite Hlen', Hlen.
      replace (0 <? close_lock_count c) with true
        by (symmetry; apply Z.ltb_lt; lia).
      cbn [andb].
      destruct (Z.eqb_spec (close_lock_count c') 0) as [Hz|Hz].
      * assert (Hnil : l = []).
        { apply (disciplined_at_zero l c' k' Hz); [|exact Hd].
          destruct (b || ctx_op_eqb o OpRequestClose); [exact Hn'|].
          destruct Hinv' as [_ ?]. lia. }
        subst l. cbn [run fst]. rewrite Hz. cbn. lia.
      * replace (0 <? close_lock_count c') with true; [cbn [andb]; lia|].
        symmetry. apply Z.ltb_lt.
        destruct Hinv' as [_ ?].
        destruct (b || ctx_op_eqb o OpRequestClose); lia.
Qed.

(** The lock count after one allowed operation. *)
Lemma step_close_lock_count (o : ctx_op) (c : rtdm_dev_context H P) (k : kernel)
      (b : bool) :
  lifecycle_inv b c -> 0 < close_lock_count c ->
  allowed o (c, k) = true ->
  close_lock_count (fst (step o (c, k)))
  = close_lock_count c + locks [o] - unlocks [o] - Z.of_nat (close_requests [o]).
Proof.
  intros [Hflag Hrange] Hpos Hallowed.
  destruct o; cbn [step fst snd allowed locks unlocks close_requests ctx_op_eqb] in *.
  - apply andb_true_iff in Hallowed as [_ Hroom]. apply Z.ltb_lt in Hroom.
    unfold rtdm_context_lock, atomic_inc. cbn [fst set_close_lock_count close_lock_count].
    rewrite wrap_int_small by (unfold in_int, INT_MAX in *; lia). lia.
  - rewrite rtdm_context_unlock_eq. cbn [fst set_close_lock_count close_lock_count].
    rewrite wrap_int_small by (unfold in_int, INT_MAX in *; destruct b; lia). lia.
  - unfold request_close. rewrite rtdm_context_unlock_eq.
    cbn [fst set_close_lock_count set_context_flags close_lock_count].
    rewrite wrap_int_small by (unfold in_int, INT_MAX in *; destruct b; lia). lia.
Qed.

(** Along a disciplined run every lock adds one to the count, every unlock
    and the close request take one away. *)
Lemma run_close_lock_count (l : list ctx_op) :
  forall (c : rtdm_dev_context H P) (k : kernel) (b : bool),
    lifecycle_inv b c ->
    close_requests l = (if b then 0 else 1)%nat ->
    disciplined l (c, k) = true ->
    close_lock_count (fst (run l (c, k)))
    = close_lock_count c + locks l - unlocks l - Z.of_nat (close_requests l).
Proof.
  induction l as [|o l IH]; intros c k b Hinv Hn Hd.
  - cbn [run fst locks unlocks close_requests]. lia.
  - assert (Hpos : 0 < close_lock_count c).
    { destruct (Z.eq_dec (close_lock_count c) 0) as [Hz|Hz].
      - destruct b.
        + pose proof (disciplined_at_zero (o :: l) c k Hz Hn Hd). discriminate.
        + destruct Hinv as [_ ?]. lia.
      - destruct Hinv as [_ ?]. destruct b; lia. }
    cbn [disciplined] in Hd. apply andb_true_iff in Hd as [Ha Hd].
    assert (Hclose : ctx_op_eqb o OpRequestClose = true -> b = false).
    { intros He. cbn [close_requests] in Hn. rewrite He in Hn.
      destruct b; [discriminate|reflexivity]. }
    destruct (step_lifecycle_inv o c k b Hinv Hpos Ha Hclose) as (Hinv' & _ & _).
    pose proof (step_close_lock_count o c k b Hinv Hpos Ha) as Hstep.
    assert (Hn' : close_requests l =
                  (if b || ctx_op_eqb o OpRequestClose then 0 else 1)%nat).
    { cbn [close_requests] in Hn.
      destruct (ctx_op_eqb o OpRequestClose) eqn:He.
      - rewrite (Hclose eq_refl) in *. cbn [orb]. lia.
      - rewrite orb_false_r. destruct b; lia. }
    cbn [run]. destruct (step o (c, k)) as [c' k'] eqn:Hs. cbn [fst] in *.
    rewrite (IH c' k' _ Hinv' Hn' Hd), Hstep.
    cbn [locks unlocks close_requests].
    destruct o; cbn [ctx_op_eqb]; lia.
Qed.

(** C2 (amended).  Take a context with the baseline reference only and the
    closing flag clear, and a sequence of locks and unlocks with exactly one
    close request in which every lock is taken while the context is in use
    and every unlock is issued on a locked context.  Then the lock count is
    never negative and ends at the number of locks minus the number of
    unlocks; every transition that requests finalization goes from 1 to 0
    with the closing flag set; finalization is requested at most once, and
    exactly once precisely when the count ends at zero.  In particular, on
    every complete sequence, one that releases each lock it takes,
    finalization is requested exactly once. *)
Theorem lifecycle_finalization_once (l : list ctx_op)
        (c : rtdm_dev_context H P) (k : kernel) :
  close_lock_count c = 1 ->
  test_bit RTDM_CLOSING (context_flags c) = false ->
  close_requests l = 1%nat ->
  disciplined l (c, k) = true ->
  Forall (fun s => 0 <= close_lock_count (fst s)) (history l (c, k))
  /\ Forall (fun t => scheduled (snd (fst t)) (snd (snd t)) <> 0%nat ->
                      final_transition t)
            (transitions l (c, k))
  /\ (scheduled k (snd (run l (c, k))) <= 1)%nat
  /\ (scheduled k (snd (run l (c, k))) = 1%nat <->
        close_lock_count (fst (run l (c, k))) = 0)
  /\ close_lock_count (fst (run l (c, k))) = locks l - unlocks l
  /\ (locks l = unlocks l ->
      scheduled k (snd (run l (c, k))) = 1%nat
      /\ close_lock_count (fst (run l (c, k))) = 0).
Proof.
  intros Hone Hflag Hn Hd.
  assert (Hinv : lifecycle_inv false c).
  { split; [exact Hflag|]. rewrite Hone. unfold INT_MAX. lia. }
  destruct (run_lifecycle_inv l c k false Hinv Hn Hd) as (Hh & Ht & Hlen).
  pose proof (run_close_lock_count l c k false Hinv Hn Hd) as Hcount.
  rewrite Hone, Hn in Hcount.
  split; [exact Hh|]. split; [exact Ht|].
  unfold scheduled. rewrite Hlen, Hone. cbn [Z.ltb Z.compare andb].
  destruct (Z.eqb_spec (close_lock_count (fst (run l (c, k)))) 0);
    (split; [lia|]); (split; [split; intros; try lia; congruence|]);
    (split; [lia|]); intros Hbal; split; lia.
Qed.

End Lifecycle.

(** A freshly opened context: lock count 1 for the baseline reference, no
    flag set, an empty operation table and no private data. *)
Definition fresh_context : rtdm_dev_context unit unit :=
  mk_context 0 3 1 no_operations tt.

Definition idle_kernel : kernel := mk_kernel [] 0.

(** C1 (counterexample).  On the fresh context, whose closing flag is clear,
    unlock takes the count from 1 to 0 and requests finalization all the
    same: the sentence of the specification does not hold for this call. *)
Lemma rtdm_context_unlock_ignores_closing :
  let c' := fst (rtdm_context_unlock 0 7 fresh_context idle_kernel) in
  let k' := snd (rtdm_context_unlock 0 7 fresh_context idle_kernel) in
  close_lock_count c' = 0
  /\ test_bit RTDM_CLOSING (context_flags c') = false
  /\ apc_requests k' = [7]
  /\ ~ unlock_as_specified 0 7 fresh_context idle_kernel.
Proof.
  cbv zeta. repeat split.
  intros [_ Hno]. specialize (Hno eq_refl eq_refl). vm_compute in Hno.
  discriminate.
Qed.

(** The amended contract on a context in its closing phase: a handler holds
    the last reference (count 1, closing set) and drops it. *)
Lemma rtdm_context_unlock_spec_witness :
  let c := mk_context (set_bit RTDM_CLOSING 0) 3 1 (@no_operations unit) tt in
  let c' := fst (rtdm_context_unlock 0 7 c idle_kernel) in
  let k' := snd (rtdm_context_unlock 0 7 c idle_kernel) in
  CONTEXT_IS_LOCKED c = true
  /\ close_lock_count c' = 0
  /\ (scheduled idle_kernel k' = 1%nat <->
        close_lock_count c' = 0
        /\ test_bit RTDM_CLOSING (context_flags c') = true).
Proof.
  intros c c' k'.
  assert (Hint : in_int (close_lock_count c)) by (vm_compute; split; discriminate).
  destruct (rtdm_context_unlock_spec 0 7 c idle_kernel Hint)
    as (_ & _ & _ & _ & _ & Hlocked).
  destruct (Hlocked eq_refl) as [Hdec Hiff].
  split; [reflexivity|]. split; [exact Hdec|exact Hiff].
Defined.

(** C2 (counterexample).  Two sequences with one close request on the fresh
    context.  In the first an unlock comes with no lock before it: the count
    goes 1, 0, -1, and the finalization request is made by the first step,
    while the closing flag is still clear.  In the second a lock is still
    held when the sequence ends: no finalization has been requested. *)
Lemma lifecycle_as_specified_fails :
  (close_requests [OpUnlock; OpRequestClose] = 1%nat
   /\ close_lock_count
        (fst (run 0 7 [OpUnlock; OpRequestClose] (fresh_context, idle_kernel))) = -1
   /\ ~ lifecycle_as_specified 0 7 [OpUnlock; OpRequestClose]
          (fresh_context, idle_kernel))
  /\ (close_requests [OpLock; OpRequestClose] = 1%nat
      /\ scheduled idle_kernel
           (snd (run 0 7 [OpLock; OpRequestClose] (fresh_context, idle_kernel)))
         = 0%nat
      /\ ~ lifecycle_as_specified 0 7 [OpLock; OpRequestClose]
             (fresh_context, idle_kernel)).
Proof.
  split; (split; [reflexivity|]); (split; [reflexivity|]).
  - intros (Hh & _ & _).
    inversion Hh as [|? ? _ Hh1]; subst.
    inversion Hh1 as [|? ? _ Hh2]; subst.
    inversion Hh2 as [|? ? Hneg _]; subst.
    vm_compute in Hneg. apply Hneg. reflexivity.
  - intros (_ & Hs & _). vm_compute in Hs. discriminate.
Qed.

(** The amended statement on a run where two handlers take the context, one
    releases it before the close request and the other after it. *)
Lemma lifecycle_finalization_once_witness :
  let l := [OpLock; OpLock; OpUnlock; OpRequestClose; OpUnlock] in
  let st := (fresh_context, idle_kernel) in
  disciplined 0 7 l st = true
  /\ locks l = unlocks l
  /\ Forall (fun s => 0 <= close_lock_count (fst s)) (history 0 7 l st)
  /\ scheduled idle_kernel (snd (run 0 7 l st)) = 1%nat
  /\ close_lock_count (fst (run 0 7 l st)) = 0.
Proof.
  intros l st.
  destruct (lifecycle_finalization_once 0 7 l fresh_context idle_kernel
              eq_refl eq_refl eq_refl eq_refl) as (Hh & _ & _ & _ & _ & Hcomplete).
  split; [reflexivity|]. split; [reflexivity|]. split; [exact Hh|].
  apply Hcomplete. reflexivity.
Defined.

End Context.

(** ** The system heap behind [xnmalloc] and [xnfree]
       (cobalt/kernel/heap.h, lines 138-139 and 183-193) *)

Module Heap.

Definition NULL : Z := 0.

(** Modelled from the spec: the allocator collaborator, "alloc(size) ->
    pointer | NoMemory, free(pointer)"; heap.h declares [xnheap_alloc] and
    [xnheap_free] and keeps their code elsewhere.  The model keeps the live
    blocks (address to size), the used and usable byte counts of
    [struct xnheap], the next unused address, and every pointer that was
    handed to [xnheap_free], most recent first. *)
Record xnheap := mk_heap {
  blocks : gmap Z Z;
  ubytes : Z;
  usable_mem : Z;
  next_block : Z;
  free_calls : list Z
}.

(** A request that cannot be served returns [NULL] and changes nothing. *)
Definition xnheap_alloc (heap : xnheap) (size : Z) : Z * xnheap :=
  if (0 <? size) && (size <=? usable_mem heap - ubytes heap)
  then (next_block heap,
        mk_heap (<[next_block heap := size]> (blocks heap))
                (ubytes heap + size) (usable_mem heap)
                (next_block heap + size) (free_calls heap))
  else (NULL, heap).

(** Releasing a live block returns 0; any other pointer is refused with
    [-EINVAL].  The call is logged in both cases. *)
Definition xnheap_free (heap : xnheap) (block : Z) : Z * xnheap :=
  match blocks heap !! block with
  | Some size =>
      (0, mk_heap (delete block (blocks heap)) (ubytes heap - size)
                  (usable_mem heap) (next_block heap)
                  (block :: free_calls heap))
  | None =>
      (- EINVAL, mk_heap (blocks heap) (ubytes heap) (usable_mem heap)
                         (next_block heap) (block :: free_calls heap))
  end.

(** [#define xnmalloc(size) xnheap_alloc(&kheap,size)],
    [#define xnfree(ptr) xnheap_free(&kheap,ptr)]: the heap argument is the
    state of [kheap]. *)
Definition xnmalloc (kheap : xnheap) (size : Z) : Z * xnheap := xnheap_alloc kheap size.
Definition xnfree (kheap : xnheap) (ptr : Z) : Z * xnheap := xnheap_free kheap ptr.

(** Addresses handed out are never [NULL]. *)
Definition heap_ok (heap : xnheap) : Prop := 0 < next_block heap.

Definition empty_heap (base size : Z) : xnheap := mk_heap ∅ 0 size base [].

(** How many times a pointer was released. *)
Definition times_freed (ptr : Z) (heap : xnheap) : nat :=
  length (filter (fun q => q = ptr) (free_calls heap)).

Lemma xnmalloc_null (heap : xnheap) (size : Z) :
  heap_ok heap -> fst (xnmalloc heap size) = NULL -> snd (xnmalloc heap size) = heap.
Proof.
  unfold heap_ok, xnmalloc, xnheap_alloc, NULL. intros Hok.
  destruct (_ && _); cbn [fst snd]; [lia|reflexivity].
Qed.

Lemma xnmalloc_fails_iff (heap : xnheap) (size : Z) :
  heap_ok heap ->
  fst (xnmalloc heap size) = NULL <-> size <= 0 \/ usable_mem heap - ubytes heap < size.
Proof.
  unfold heap_ok, xnmalloc, xnheap_alloc, NULL. intros Hok.
  destruct (Z.ltb_spec 0 size), (Z.leb_spec size (usable_mem heap - ubytes heap));
    cbn [andb fst]; lia.
Qed.

End Heap.
Import Heap.

(** ** The RTIPC protocol device (ksrc/drivers/ipc/rtipc.c) *)

Module Rtipc.
Import Context.

(** The functions of rtipc.c that the device structure points to. *)
Inductive rtipc_fn :=
| fn_rtipc_socket | fn_rtipc_close | fn_rtipc_recvmsg | fn_rtipc_sendmsg
| fn_rtipc_read | fn_rtipc_write | fn_rtipc_ioctl.

(** The [.ops] initialiser of [static struct rtdm_device device] (lines
    150-163); [select_bind] is not named there and stays [NULL]. *)
Definition device_ops : rtdm_operations rtipc_fn :=
  {| close_rt := Some fn_rtipc_close;
     close_nrt := Some fn_rtipc_close;
     ioctl_rt := Some fn_rtipc_ioctl;
     ioctl_nrt := Some fn_rtipc_ioctl;
     select_bind := None;
     read_rt := Some fn_rtipc_read;
     read_nrt := None;
     write_rt := Some fn_rtipc_write;
     write_nrt := None;
     recvmsg_rt := Some fn_rtipc_recvmsg;
     recvmsg_nrt := None;
     sendmsg_rt := Some fn_rtipc_sendmsg;
     sendmsg_nrt := None |}.

(** [.socket_rt] and [.socket_nrt] of the same initialiser. *)
Definition device_socket_rt : option rtipc_fn := Some fn_rtipc_socket.
Definition device_socket_nrt : option rtipc_fn := Some fn_rtipc_socket.

(** [__rtipc_exit] calls [rtdm_dev_unregister(&device, 1000)]. *)
Definition rtipc_exit_poll_delay : Z := 1000.

(** The two protocol drivers the table may point to. *)
Inductive proto_ref := xddp_proto_driver | iddp_proto_driver.

(** [struct rtipc_private]: [proto] is [NULL] until a socket is created,
    [state] is the address of the protocol state buffer. *)
Record rtipc_private := mk_private {
  proto : option proto_ref;
  state : Z
}.

(** [rtdm_user_info_t *]: [None] for a kernel caller. *)
Definition rtdm_user_info_t : Type := option Z.

(** A protocol handler receives the private area and may change it and the
    heap; it returns a C [int]. *)
Definition proto_handler : Type :=
  rtipc_private -> rtdm_user_info_t -> xnheap -> Z * rtipc_private * xnheap.

(** [struct rtipc_protocol], restricted to the members that [rtipc_socket]
    and [rtipc_close] read: the state size and the socket and close entries
    of [proto_ops]. *)
Record rtipc_protocol := mk_protocol {
  proto_statesz : Z;
  proto_ops_socket : proto_handler;
  proto_ops_close : proto_handler
}.

Definition rtipc_context : Type := rtdm_dev_context rtipc_fn rtipc_private.

Section Driver.

(** Protocol numbers of rtdm/rtipc.h, the two configuration switches and
    the contents of the driver structures of internal.h. *)
Variables IPCPROTO_IPC IPCPROTO_XDDP IPCPROTO_IDDP IPCPROTO_MAX : Z.
Variables CONFIG_XENO_DRIVERS_RTIPC_XDDP CONFIG_XENO_DRIVERS_RTIPC_IDDP : bool.
Variable driver : proto_ref -> rtipc_protocol.

(** [static struct rtipc_protocol *protocols[IPCPROTO_MAX]]: every slot is
    [NULL] except the designated ones that are configured in. *)
Definition protocols : list (option proto_ref) :=
  let t := replicate (Z.to_nat IPCPROTO_MAX) None in
  let t := if CONFIG_XENO_DRIVERS_RTIPC_XDDP
           then <[Z.to_nat (IPCPROTO_XDDP - 1) := Some xddp_proto_driver]> t
           else t in
  if CONFIG_XENO_DRIVERS_RTIPC_IDDP
  then <[Z.to_nat (IPCPROTO_IDDP - 1) := Some iddp_proto_driver]> t
  else t.

(** [protocols[i]]; [None] when [i] is outside the array, which C leaves
    undefined. *)
Definition protocols_at (i : Z) : option (option proto_ref) :=
  if i <? 0 then None else protocols !! Z.to_nat i.

(** [rtipc_socket(context, user_info, protocol)].  The result is [None]
    when the function reads outside [protocols]. *)
Definition rtipc_socket (context : rtipc_context) (user_info : rtdm_user_info_t)
           (protocol : Z) (kheap : xnheap)
  : option (Z * rtipc_context * xnheap) :=
  if (protocol <? 0) || (protocol >=? IPCPROTO_MAX)
  then Some (- EPROTONOSUPPORT, context, kheap)
  else
    let protocol := if protocol =? IPCPROTO_IPC then IPCPROTO_IDDP else protocol in
    match protocols_at (protocol - 1) with
    | None => None
    | Some None => Some (- ENOPROTOOPT, context, kheap)
    | Some (Some pr) =>
        let p := rtdm_context_to_private context in
        let p := mk_private (Some pr) (state p) in
        let '(ptr, kheap) := xnmalloc kheap (proto_statesz (driver pr)) in
        let p := mk_private (proto p) ptr in
        if state p =? NULL
        then Some (- ENOMEM, set_dev_private p context, kheap)
        else
          let '(ret, p, kheap) := proto_ops_socket (driver pr) p user_info kheap in
          Some (ret, set_dev_private p context, kheap)
    end.

(** [rtipc_close(context, user_info)].  The result is [None] when
    [p->proto] is [NULL], which the function dereferences. *)
Definition rtipc_close (context : rtipc_context) (user_info : rtdm_user_info_t)
           (kheap : xnheap)
  : option (Z * rtipc_context * xnheap) :=
  let p := rtdm_context_to_private context in
  match proto p with
  | None => None
  | Some pr =>
      let '(ret, p, kheap) := proto_ops_close (driver pr) p user_info kheap in
      if negb (ret =? 0)
      then Some (ret, set_dev_private p context, kheap)
      else
        let '(_, kheap) := xnfree kheap (state p) in
        Some (0, set_dev_private p context, kheap)
  end.

(** The numbering the table relies on: [IPCPROTO_IPC] is 0 and the two
    protocols have distinct numbers between 1 and [IPCPROTO_MAX - 1]. *)
Definition ipcproto_ok : Prop :=
  IPCPROTO_IPC = 0
  /\ 0 < IPCPROTO_XDDP < IPCPROTO_MAX
  /\ 0 < IPCPROTO_IDDP < IPCPROTO_MAX
  /\ IPCPROTO_XDDP <> IPCPROTO_IDDP.

(** The protocol number after the default has been replaced. *)
Definition effective_protocol (protocol : Z) : Z :=
  if protocol =? IPCPROTO_IPC then IPCPROTO_IDDP else protocol.

(** *** Socket creation *)

Lemma length_protocols : length protocols = Z.to_nat IPCPROTO_MAX.
Proof.
  unfold protocols.
  destruct CONFIG_XENO_DRIVERS_RTIPC_XDDP, CONFIG_XENO_DRIVERS_RTIPC_IDDP;
    rewrite ?length_insert, length_replicate; reflexivity.
Qed.

(** With the numbering right, an accepted protocol number indexes a slot
    of the table. *)
Lemma protocols_at_in_range (protocol : Z) :
  ipcproto_ok -> 0 <= protocol < IPCPROTO_MAX ->
  exists slot, protocols_at (effective_protocol protocol - 1) = Some slot.
Proof.
  intros (Hipc & Hx & Hi & _) Hp.
  assert (He : 1 <= effective_protocol protocol < IPCPROTO_MAX).
  { unfold effective_protocol.
    destruct (Z.eqb_spec protocol IPCPROTO_IPC); lia. }
  unfold protocols_at.
  replace (effective_protocol protocol - 1 <? 0) with false
    by (symmetry; apply Z.ltb_ge; lia).
  apply lookup_lt_is_Some_2. rewrite length_protocols. lia.
Qed.

Lemma protocols_at_unconfigured (i : Z) :
  0 <= i < IPCPROTO_MAX ->
  (CONFIG_XENO_DRIVERS_RTIPC_XDDP = true -> i <> IPCPROTO_XDDP - 1) ->
  (CONFIG_XENO_DRIVERS_RTIPC_IDDP = true -> i <> IPCPROTO_IDDP - 1) ->
  0 < IPCPROTO_XDDP -> 0 < IPCPROTO_IDDP ->
  protocols_at i = Some None.
Proof.
  intros Hi Hx Hd Hxp Hdp. unfold protocols_at, protocols.
  replace (i <? 0) with false by (symmetry; apply Z.ltb_ge; lia).
  assert (Hrep : replicate (Z.to_nat IPCPROTO_MAX) (@None proto_ref)
                   !! Z.to_nat i = Some None)
    by (apply lookup_replicate_2; lia).
  destruct CONFIG_XENO_DRIVERS_RTIPC_XDDP, CONFIG_XENO_DRIVERS_RTIPC_IDDP;
    repeat (rewrite list_lookup_insert_ne;
            [|first [specialize (Hx eq_refl) | specialize (Hd eq_refl)]; lia]);
    exact Hrep.
Qed.

Lemma rtipc_socket_accepted (context : rtipc_context)
      (user_info : rtdm_user_info_t) (protocol : Z) (kheap : xnheap) :
  0 <= protocol < IPCPROTO_MAX ->
  rtipc_socket context user_info protocol kheap =
    match protocols_at (effective_protocol protocol - 1) with
    | None => None
    | Some None => Some (- ENOPROTOOPT, context, kheap)
    | Some (Some pr) =>
        let '(ptr, kheap) := xnmalloc kheap (proto_statesz (driver pr)) in
        if ptr =? NULL
        then Some (- ENOMEM,
                   set_dev_private (mk_private (Some pr) ptr) context, kheap)
        else
          let '(ret, p, kheap) :=
            proto_ops_socket (driver pr) (mk_private (Some pr) ptr)
                             user_info kheap in
          Some (ret, set_dev_private p context, kheap)
    end.
Proof.
  intros Hp. unfold rtipc_socket, effective_protocol.
  replace (protocol <? 0) with false by (symmetry; apply Z.ltb_ge; lia).
  replace (protocol >=? IPCPROTO_MAX) with false
    by (symmetry; rewrite Z.geb_leb; apply Z.leb_gt; lia).
  cbn [orb].
  destruct (protocols_at _) as [[pr|]|]; reflexivity.
Qed.

(** C7.  Socket creation on the RTIPC device, for every protocol number.
    A number below 0 or at least [IPCPROTO_MAX] is refused with
    [-EPROTONOSUPPORT].  A number in range selects a slot of the table (the
    read stays inside the array); if the slot is [NULL], the protocol being
    not compiled in, the call fails with [-ENOPROTOOPT]; this is what
    happens for XDDP, and for IDDP and the default protocol, when the
    matching switch is off.  If the slot holds a driver and the allocation
    of its state returns [NULL], the call fails with [-ENOMEM].  In the
    first two cases the context and the heap are returned as they were; in
    the third the heap is unchanged, so nothing stays allocated, and the
    private area holds the driver and a [NULL] state pointer. *)
Theorem rtipc_socket_errors (context : rtipc_context)
        (user_info : rtdm_user_info_t) (protocol : Z) (kheap : xnheap) :
  ipcproto_ok -> heap_ok kheap ->
  (protocol < 0 \/ IPCPROTO_MAX <= protocol ->
     rtipc_socket context user_info protocol kheap
       = Some (- EPROTONOSUPPORT, context, kheap))
  /\ (0 <= protocol < IPCPROTO_MAX ->
      exists slot,
        protocols_at (effective_protocol protocol - 1) = Some slot
        /\ match slot with
           | None =>
               rtipc_socket context user_info protocol kheap
                 = Some (- ENOPROTOOPT, context, kheap)
           | Some pr =>
               fst (xnmalloc kheap (proto_statesz (driver pr))) = NULL ->
               rtipc_socket context user_info protocol kheap
                 = Some (- ENOMEM,
                         set_dev_private (mk_private (Some pr) NULL) context,
                         kheap)
           end)
  /\ (CONFIG_XENO_DRIVERS_RTIPC_XDDP = false ->
      rtipc_socket context user_info IPCPROTO_XDDP kheap
        = Some (- ENOPROTOOPT, context, kheap))
  /\ (CONFIG_XENO_DRIVERS_RTIPC_IDDP = false ->
      rtipc_socket context user_info IPCPROTO_IDDP kheap
        = Some (- ENOPROTOOPT, context, kheap)
      /\ rtipc_socket context user_info IPCPROTO_IPC kheap
        = Some (- ENOPROTOOPT, context, kheap)).
Proof.
  intros Hok Hheap. pose proof Hok as (Hipc & Hx & Hi & Hne).
  split; [|split; [|split]].
  - intros Hout. unfold rtipc_socket.
    replace ((protocol <? 0) || (protocol >=? IPCPROTO_MAX)) with true;
      [reflexivity|].
    symmetry. apply orb_true_iff. rewrite Z.ltb_lt, Z.geb_leb, Z.leb_le. lia.
  - intros Hp. destruct (protocols_at_in_range protocol Hok Hp) as [slot Hslot].
    exists slot. split; [exact Hslot|].
    rewrite rtipc_socket_accepted by exact Hp. rewrite Hslot.
    destruct slot as [pr|]; [|reflexivity].
    intros Hnull. pose proof (xnmalloc_null kheap _ Hheap Hnull) as Hsame.
    destruct (xnmalloc kheap (proto_statesz (driver pr))) as [ptr kheap'].
    cbn [fst snd] in *. subst ptr kheap'. reflexivity.
  - intros Hoff. rewrite rtipc_socket_accepted by lia.
    unfold effective_protocol.
    replace (IPCPROTO_XDDP =? IPCPROTO_IPC) with false
      by (symmetry; apply Z.eqb_neq; lia).
    rewrite protocols_at_unconfigured; [reflexivity|lia| | |lia|lia].
    + rewrite Hoff. discriminate.
    + intros _. lia.
  - intros Hoff.
    assert (Hslot : protocols_at (IPCPROTO_IDDP - 1) = Some None).
    { apply protocols_at_unconfigured; [lia| | |lia|lia].
      - intros _. lia.
      - rewrite Hoff. discriminate. }
    split; rewrite rtipc_socket_accepted by lia; unfold effective_protocol.
    + replace (IPCPROTO_IDDP =? IPCPROTO_IPC) with false
        by (symmetry; apply Z.eqb_neq; lia).
      rewrite Hslot. reflexivity.
    + rewrite Z.eqb_refl, Hslot. reflexivity.
Qed.

(** *** Close *)

(** A run of [rtipc_close] that returns 0 has just handed [p->state] to
    [xnfree]: nothing in the function remembers an earlier release. *)
Lemma rtipc_close_success_frees (context context' : rtipc_context)
      (user_info : rtdm_user_info_t) (kheap kheap' : xnheap) :
  rtipc_close context user_info kheap = Some (0, context', kheap') ->
  exists rest,
    free_calls kheap' = state (rtdm_context_to_private context') :: rest.
Proof.
  unfold rtipc_close, rtdm_context_to_private.
  destruct (proto (dev_private context)) as [pr|]; [|discriminate].
  destruct (proto_ops_close (driver pr) (dev_private context) user_info kheap)
    as [[ret p] kheap1].
  destruct (Z.eqb_spec ret 0) as [->|Hret]; cbn [negb].
  - unfold xnfree, xnheap_free.
    destruct (blocks kheap1 !! state p); intros [= <- <-]; eexists; reflexivity.
  - intros [= -> _ _]. contradiction.
Qed.

End Driver.

(** *** A configuration to run the driver on *)

(** Protocol numbers 0 (default), 1 (XDDP), 2 (IDDP), three slots; a driver
    whose socket and close entries succeed and touch nothing. *)
Definition quiet_handler : proto_handler := fun p _ kheap => (0, p, kheap).

Definition quiet_driver (statesz : Z) (_ : proto_ref) : rtipc_protocol :=
  mk_protocol statesz quiet_handler quiet_handler.

Definition closed_socket : rtipc_context :=
  mk_context 0 3 1 device_ops (mk_private None NULL).

(** The theorem on a build with XDDP only and a heap of 16 bytes, too small
    for the 64 bytes of protocol state. *)
Lemma rtipc_socket_errors_witness :
  let kheap := empty_heap 4096 16 in
  let socket := rtipc_socket 0 1 2 3 true false (quiet_driver 64) closed_socket None in
  socket 5 kheap = Some (- EPROTONOSUPPORT, closed_socket, kheap)
  /\ socket 2 kheap = Some (- ENOPROTOOPT, closed_socket, kheap)
  /\ socket 1 kheap
     = Some (- ENOMEM,
             set_dev_private (mk_private (Some xddp_proto_driver) NULL) closed_socket,
             kheap).
Proof.
  intros kheap socket.
  assert (Hok : ipcproto_ok 0 1 2 3) by (unfold ipcproto_ok; lia).
  assert (Hheap : heap_ok kheap) by (unfold heap_ok; cbn; lia).
  split; [|split].
  - apply (rtipc_socket_errors 0 1 2 3 true false (quiet_driver 64)
             closed_socket None 5 kheap Hok Hheap). lia.
  - apply (rtipc_socket_errors 0 1 2 3 true false (quiet_driver 64)
             closed_socket None 2 kheap Hok Hheap). reflexivity.
  - destruct (rtipc_socket_errors 0 1 2 3 true false (quiet_driver 64)
                closed_socket None 1 kheap Hok Hheap) as (_ & Hin & _).
    destruct (Hin ltac:(lia)) as (slot & Hslot & Hres).
    cbv in Hslot. injection Hslot as <-. apply Hres. reflexivity.
Defined.

(** C4 (the code at a failing input).  A socket is created on a 1024-byte
    heap: the state buffer is the block at 4096.  [rtipc_close] then runs
    twice on the same context.  Both runs return 0, and both hand 4096 to
    [xnfree]: the second release is of a block that is no longer live, which
    the heap refuses with [-EINVAL] behind the back of [rtipc_close]. *)
Theorem rtipc_close_twice_frees_twice :
  let socket := rtipc_socket 0 1 2 3 true true (quiet_driver 64) in
  let close := rtipc_close (quiet_driver 64) in
  exists context kheap1 kheap2 kheap3,
    socket closed_socket None 1 (empty_heap 4096 1024) = Some (0, context, kheap1)
    /\ state (rtdm_context_to_private context) = 4096
    /\ blocks kheap1 !! 4096 = Some 64
    /\ close context None kheap1 = Some (0, context, kheap2)
    /\ blocks kheap2 !! 4096 = None
    /\ close context None kheap2 = Some (0, context, kheap3)
    /\ free_calls kheap3 = [4096; 4096]
    /\ times_freed 4096 kheap3 = 2%nat
    /\ fst (xnfree kheap2 4096) = - EINVAL.
Proof.
  intros socket close.
  exists (set_dev_private (mk_private (Some xddp_proto_driver) 4096) closed_socket).
  exists (mk_heap {[ 4096 := 64 ]} 64 1024 4160 []).
  exists (mk_heap ∅ 0 1024 4160 [4096]).
  exists (mk_heap ∅ 0 1024 4160 [4096; 4096]).
  repeat split.
Qed.

End Rtipc.

(** ** Dual-context dispatch over the operation table *)

Module Dispatch.

(** The two execution domains a caller can be in. *)
Inductive domain := RT | NRT.

Definition opposite (d : domain) : domain :=
  match d with RT => NRT | NRT => RT end.

(** The operations of [struct rtdm_operations]. *)
Inductive operation :=
| op_close | op_ioctl | op_select_bind | op_read | op_write
| op_recvmsg | op_sendmsg.

(** The entry of the table for an operation and a domain: the [_rt] member
    for [RT], the [_nrt] member for [NRT]; [select_bind] has one member,
    "for any context". *)
Definition variant {H : Type} (ops : rtdm_operations H) (o : operation)
           (d : domain) : option H :=
  match o, d with
  | op_close, RT => close_rt ops
  | op_close, NRT => close_nrt ops
  | op_ioctl, RT => ioctl_rt ops
  | op_ioctl, NRT => ioctl_nrt ops
  | op_select_bind, _ => select_bind ops
  | op_read, RT => read_rt ops
  | op_read, NRT => read_nrt ops
  | op_write, RT => write_rt ops
  | op_write, NRT => write_nrt ops
  | op_recvmsg, RT => recvmsg_rt ops
  | op_recvmsg, NRT => recvmsg_nrt ops
  | op_sendmsg, RT => sendmsg_rt ops
  | op_sendmsg, NRT => sendmsg_nrt ops
  end.

(** One handler invocation: the handler, the column of the table it was
    taken from and the domain it was run in. *)
Record invocation (H : Type) := mk_invocation {
  inv_handler : H;
  inv_slot : domain;
  inv_domain : domain
}.

Arguments mk_invocation {H}.
Arguments inv_handler {H}.
Arguments inv_slot {H}.
Arguments inv_domain {H}.

(** What the original caller receives. *)
Inductive outcome :=
| Handled (ret : Z)
| RetryAfterDelay
| NotSupported.

Section Dispatcher.

Context {H : Type}.

(** The value a handler returns when it is run in a domain. *)
Variable handler_result : H -> domain -> Z.

(** The caller's view of a handler's return value: [-ENOSYS] is the
    request to be called from the other domain and has no outcome of its
    own, [-EAGAIN] from a close handler asks for a recall after a grace
    period, anything else passes through. *)
Definition classify (o : operation) (ret : Z) : option outcome :=
  if ret =? - ENOSYS then None
  else match o with
       | op_close => if ret =? - EAGAIN then Some RetryAfterDelay
                     else Some (Handled ret)
       | _ => Some (Handled ret)
       end.

(** Step 2 of the algorithm below: the call is marshalled into domain [d]
    and the variant for [d], if there is one, runs there.  The sentinel
    from this last candidate surfaces as [NotSupported]. *)
Definition dispatch_in (ops : rtdm_operations H) (o : operation) (d : domain)
  : list (invocation H) * outcome :=
  match variant ops o d with
  | Some h =>
      ([mk_invocation h d d],
       match classify o (handler_result h d) with
       | Some out => out
       | None => NotSupported
       end)
  | None => ([], NotSupported)
  end.

(** Modelled from the spec: the dispatcher of the core, whose code is not
    among the sources.  "1. If the variant matching C exists, invoke it.
    2. Else, if the variant for the opposite context exists, marshal the
    call into that context and invoke it there.  3. Else, fail with
    NotSupported.  4. If the invoked handler itself returns the sentinel,
    treat it as if step 1's variant were absent and fall through to step 2
    (with the context now excluded from retry)."  The result is the list
    of invocations, in order, and the outcome. *)
Definition dispatch (ops : rtdm_operations H) (o : operation) (C : domain)
  : list (invocation H) * outcome :=
  match variant ops o C with
  | Some h =>
      match classify o (handler_result h C) with
      | Some out => ([mk_invocation h C C], out)
      | None =>
          let '(invs, out) := dispatch_in ops o (opposite C) in
          (mk_invocation h C C :: invs, out)
      end
  | None => dispatch_in ops o (opposite C)
  end.

(** An invocation is in the right domain when the handler ran in the
    domain of the column it was registered in, and that column does hold
    the handler. *)
Definition right_domain (ops : rtdm_operations H) (o : operation)
           (i : invocation H) : Prop :=
  inv_slot i = inv_domain i /\ variant ops o (inv_slot i) = Some (inv_handler i).

Lemma dispatch_in_right_domain (ops : rtdm_operations H) (o : operation)
      (d : domain) :
  Forall (right_domain ops o) (fst (dispatch_in ops o d)).
Proof.
  unfold dispatch_in. destruct (variant ops o d) as [h|] eqn:Hv; cbn [fst].
  - repeat constructor. exact Hv.
  - constructor.
Qed.

Lemma dispatch_right_domain (ops : rtdm_operations H) (o : operation)
      (C : domain) :
  Forall (right_domain ops o) (fst (dispatch ops o C)).
Proof.
  unfold dispatch. destruct (variant ops o C) as [h|] eqn:Hv.
  - destruct (classify o (handler_result h C)).
    + repeat constructor. exact Hv.
    + pose proof (dispatch_in_right_domain ops o (opposite C)) as Hin.
      destruct (dispatch_in ops o (opposite C)) as [invs out]. cbn [fst] in *.
      constructor; [split; [reflexivity|exact Hv]|exact Hin].
  - apply dispatch_in_right_domain.
Qed.

Lemma dispatch_matching (ops : rtdm_operations H) (o : operation)
      (C : domain) (h : H) :
  variant ops o C = Some h ->
  exists rest, fst (dispatch ops o C) = mk_invocation h C C :: rest.
Proof.
  intros Hv. unfold dispatch. rewrite Hv.
  destruct (classify o (handler_result h C)).
  - eexists. reflexivity.
  - destruct (dispatch_in ops o (opposite C)) as [invs out].
    eexists. reflexivity.
Qed.

Lemma dispatch_fallback (ops : rtdm_operations H) (o : operation)
      (C : domain) (h : H) :
  variant ops o C = None -> variant ops o (opposite C) = Some h ->
  fst (dispatch ops o C) = [mk_invocation h (opposite C) (opposite C)]
  /\ snd (dispatch ops o C) =
       match classify o (handler_result h (opposite C)) with
       | Some out => out
       | None => NotSupported
       end.
Proof.
  intros Hv Ho. unfold dispatch, dispatch_in. rewrite Hv, Ho.
  split; reflexivity.
Qed.

Lemma dispatch_absent (ops : rtdm_operations H) (o : operation) (C : domain) :
  variant ops o C = None -> variant ops o (opposite C) = None ->
  dispatch ops o C = ([], NotSupported).
Proof.
  intros Hv Ho. unfold dispatch, dispatch_in. rewrite Hv, Ho. reflexivity.
Qed.

(** The sentinel never reaches the caller. *)
Lemma dispatch_absorbs_sentinel (ops : rtdm_operations H) (o : operation)
      (C : domain) :
  snd (dispatch ops o C) <> Handled (- ENOSYS).
Proof.
  assert (Hc : forall r out, classify o r = Some out -> out <> Handled (- ENOSYS)).
  { intros r out. unfold classify.
    destruct (Z.eqb_spec r (- ENOSYS)) as [|Hr]; [discriminate|].
    destruct o; try (intros [= <-] [= ?]; contradiction).
    destruct (r =? - EAGAIN); intros [= <-]; [discriminate|].
    intros [= ?]; contradiction. }
  assert (Hin : forall d, snd (dispatch_in ops o d) <> Handled (- ENOSYS)).
  { intros d. unfold dispatch_in. destruct (variant ops o d) as [h|]; cbn [snd].
    - destruct (classify o (handler_result h d)) eqn:Hcl; [|discriminate].
      eapply Hc. exact Hcl.
    - discriminate. }
  unfold dispatch. destruct (variant ops o C) as [h|]; [|apply Hin].
  destruct (classify o (handler_result h C)) eqn:Hcl.
  - cbn [snd]. eapply Hc. exact Hcl.
  - specialize (Hin (opposite C)).
    destruct (dispatch_in ops o (opposite C)). exact Hin.
Qed.

End Dispatcher.

(** The operations for which the RTIPC device registers the [_rt] member
    only. *)
Definition rtipc_rt_only (o : operation) : option Rtipc.rtipc_fn :=
  match o with
  | op_read => Some Rtipc.fn_rtipc_read
  | op_write => Some Rtipc.fn_rtipc_write
  | op_recvmsg => Some Rtipc.fn_rtipc_recvmsg
  | op_sendmsg => Some Rtipc.fn_rtipc_sendmsg
  | _ => None
  end.

(** C3.  For every operation table, operation and caller domain [C]: when
    the variant matching [C] exists it is the first handler invoked, in [C];
    when it does not exist and the variant for the opposite domain does, that
    one is the only handler invoked, in the opposite domain; when neither
    exists no handler is invoked and the call fails with [NotSupported].
    Every invocation runs a handler in the domain of the column it is
    registered in.  On the RTIPC table, read, write, recvmsg and sendmsg have
    the [_rt] member only, and a call from the non-real-time domain invokes
    exactly that member, in the real-time domain. *)
Theorem dispatch_contract :
  (forall (H : Type) (handler_result : H -> domain -> Z)
          (ops : rtdm_operations H) (o : operation) (C : domain),
      (forall h, variant ops o C = Some h ->
                 exists rest,
                   fst (dispatch handler_result ops o C)
                     = mk_invocation h C C :: rest)
      /\ (forall h, variant ops o C = None ->
                    variant ops o (opposite C) = Some h ->
                    fst (dispatch handler_result ops o C)
                      = [mk_invocation h (opposite C) (opposite C)])
      /\ (variant ops o C = None -> variant ops o (opposite C) = None ->
          dispatch handler_result ops o C = ([], NotSupported))
      /\ Forall (right_domain ops o) (fst (dispatch handler_result ops o C)))
  /\ (forall (handler_result : Rtipc.rtipc_fn -> domain -> Z)
             (o : operation) (f : Rtipc.rtipc_fn),
         rtipc_rt_only o = Some f ->
         variant Rtipc.device_ops o RT = Some f
         /\ variant Rtipc.device_ops o NRT = None
         /\ fst (dispatch handler_result Rtipc.device_ops o NRT)
            = [mk_invocation f RT RT]).
Proof.
  split.
  - intros H handler_result ops o C. split; [|split; [|split]].
    + intros h. apply dispatch_matching.
    + intros h Hv Ho. apply (dispatch_fallback handler_result ops o C h Hv Ho).
    + apply dispatch_absent.
    + apply dispatch_right_domain.
  - intros handler_result o f Hf.
    destruct o; try discriminate; injection Hf as <-;
      (split; [reflexivity|]); (split; [reflexivity|]);
      match goal with
      | |- fst (dispatch _ _ ?o _) = [mk_invocation ?f _ _] =>
          exact (proj1 (dispatch_fallback handler_result Rtipc.device_ops o NRT f
                                          eq_refl eq_refl))
      end.
Qed.

(** The contract at work on the RTIPC table: a read from the non-real-time
    domain whose handler returns 12 bytes, and a select-bind, which the
    device does not provide. *)
Example dispatch_rtipc_read :
  dispatch (fun _ _ => 12) Rtipc.device_ops op_read NRT
  = ([mk_invocation Rtipc.fn_rtipc_read RT RT], Handled 12).
Proof. reflexivity. Qed.

Example dispatch_rtipc_select_bind :
  dispatch (fun _ _ => 0) Rtipc.device_ops op_select_bind RT = ([], NotSupported).
Proof. reflexivity. Qed.

End Dispatch.

(** ** Events, semaphores and mutexes (rtdm_driver.h, lines 1138-1228) *)

Module Synch.

(** [xnsynch_t], as far as the inline services and their callers see it: the
    status word and the threads blocked on the object, first to be served
    first. *)
Record xnsynch := mk_synch {
  status : Z;
  pendq : list Z
}.

(** [DECLARE_XNSELECT(select_block)]: the selectors bound to the object. *)
Record xnselect := mk_select { bindings : list Z }.

(** [rtdm_event_t], [rtdm_sem_t], [rtdm_mutex_t] *)
Record rtdm_event_t := mk_event {
  event_synch_base : xnsynch;
  event_select_block : xnselect
}.

Record rtdm_sem_t := mk_sem {
  value : Z;
  sem_synch_base : xnsynch;
  sem_select_block : xnselect
}.

Record rtdm_mutex_t := mk_mutex { mutex_synch_base : xnsynch }.

(** A wake-up delivered by the nucleus: the thread and the reason bits put
    in its information word.  The log keeps them in order of delivery. *)
Definition wakeups : Type := list (Z * Z).

(** What a blocking call reports to its caller once it is resumed. *)
Inductive wait_status := WaitDone | WaitTimeout | WaitRemoved | WaitInterrupted.

(** What a wait call does at once. *)
Inductive wait_result := Returned (ret : Z) | Blocked.

Section Services.

(** Thread information bits and the spare status bit of the nucleus
    (nucleus/thread.h and nucleus/synch.h, outside the two sources). *)
Variables XNTIMEO XNRMID XNBREAK XNSYNCH_SPARE1 : Z.

(** [#define RTDM_EVENT_PENDING XNSYNCH_SPARE1] *)
Definition RTDM_EVENT_PENDING : Z := XNSYNCH_SPARE1.

(** The bits are flags of one word: each is set, and they do not overlap. *)
Definition info_bits_ok : Prop :=
  XNRMID <> 0 /\ Z.land XNRMID XNTIMEO = 0 /\ Z.land XNRMID XNBREAK = 0.

(** Modelled from the spec: [__rtdm_synch_flush(synch, reason)], declared
    in the header and defined in the core.  "Forcibly wakes all waiters
    with a removed reason" on destruction, "wakes everyone currently
    blocked without setting the sticky bit" on a pulse: every thread of the
    queue is resumed with [reason], the queue is left empty and the status
    word is not written. *)
Definition __rtdm_synch_flush (synch : xnsynch) (reason : Z) (w : wakeups)
  : xnsynch * wakeups :=
  (mk_synch (status synch) [],
   w ++ map (fun thread => (thread, reason)) (pendq synch)).

(** Modelled from the spec: [xnselect_destroy(select_block)] of the
    nucleus drops every binding of the block. *)
Definition xnselect_destroy (_ : xnselect) : xnselect := mk_select [].

(** Modelled from the spec: how a resumed waiter reads its reason bits,
    "a removed status distinct from normal signal/timeout outcomes". *)
Definition wake_status (info : Z) : wait_status :=
  if negb (Z.land info XNTIMEO =? 0) then WaitTimeout
  else if negb (Z.land info XNRMID =? 0) then WaitRemoved
  else if negb (Z.land info XNBREAK =? 0) then WaitInterrupted
  else WaitDone.

(** Modelled from the spec: [rtdm_event_wait(event)], declared in the
    header.  "Blocks until pending is set, then clears it atomically before
    returning": with the bit set the caller returns at once and the bit is
    cleared, otherwise the caller joins the queue. *)
Definition rtdm_event_wait (event : rtdm_event_t) (thread : Z)
  : rtdm_event_t * wait_result :=
  let synch := event_synch_base event in
  if negb (Z.land (status synch) RTDM_EVENT_PENDING =? 0)
  then (mk_event (mk_synch (Z.land (status synch) (Z.lnot RTDM_EVENT_PENDING))
                           (pendq synch))
                 (event_select_block event),
        Returned 0)
  else (mk_event (mk_synch (status synch) (pendq synch ++ [thread]))
                 (event_select_block event),
        Blocked).

(** [rtdm_event_pulse(event)]: [__rtdm_synch_flush(&event->synch_base, 0)] *)
Definition rtdm_event_pulse (event : rtdm_event_t) (w : wakeups)
  : rtdm_event_t * wakeups :=
  let '(synch, w) := __rtdm_synch_flush (event_synch_base event) 0 w in
  (mk_event synch (event_select_block event), w).

(** [rtdm_event_destroy(event)]:
    [__rtdm_synch_flush(&event->synch_base, XNRMID);
     xnselect_destroy(&event->select_block);] *)
Definition rtdm_event_destroy (event : rtdm_event_t) (w : wakeups)
  : rtdm_event_t * wakeups :=
  let '(synch, w) := __rtdm_synch_flush (event_synch_base event) XNRMID w in
  (mk_event synch (xnselect_destroy (event_select_block event)), w).

(** [rtdm_sem_destroy(sem)] *)
Definition rtdm_sem_destroy (sem : rtdm_sem_t) (w : wakeups)
  : rtdm_sem_t * wakeups :=
  let '(synch, w) := __rtdm_synch_flush (sem_synch_base sem) XNRMID w in
  (mk_sem (value sem) synch (xnselect_destroy (sem_select_block sem)), w).

(** [rtdm_mutex_destroy(mutex)] *)
Definition rtdm_mutex_destroy (mutex : rtdm_mutex_t) (w : wakeups)
  : rtdm_mutex_t * wakeups :=
  let '(synch, w) := __rtdm_synch_flush (mutex_synch_base mutex) XNRMID w in
  (mk_mutex synch, w).

(** *** Destruction *)

Lemma flush_wakes_all (synch : xnsynch) (reason : Z) (w : wakeups) :
  pendq (fst (__rtdm_synch_flush synch reason w)) = []
  /\ status (fst (__rtdm_synch_flush synch reason w)) = status synch
  /\ forall thread info,
       In (thread, info) (snd (__rtdm_synch_flush synch reason w)) <->
       In (thread, info) w \/ (In thread (pendq synch) /\ info = reason).
Proof.
  unfold __rtdm_synch_flush. cbn [fst snd pendq status].
  split; [reflexivity|]. split; [reflexivity|].
  intros thread info. rewrite in_app_iff, in_map_iff. split.
  - intros [Hw|(t & [= <- <-] & Ht)]; [left; exact Hw|right; split; trivial].
  - intros [Hw|[Ht ->]]; [left; exact Hw|right; exists thread; split; trivial].
Qed.

Lemma wake_status_removed : info_bits_ok -> wake_status XNRMID = WaitRemoved.
Proof.
  intros (Hnz & Ht & _). unfold wake_status.
  rewrite Ht, Z.eqb_refl, Z.land_diag. cbn [negb].
  destruct (Z.eqb_spec XNRMID 0); [contradiction|reflexivity].
Qed.

(** The threads resumed by a call, with their reasons: what the call added
    to the log [w]. *)
Definition woken_with (reason : Z) (queue : list Z) (w w' : wakeups) : Prop :=
  w' = w ++ map (fun thread => (thread, reason)) queue.

(** C5.  Destroying an event, a semaphore or a mutex empties its wait
    queue and resumes every thread that was blocked on it, each exactly
    with the reason [XNRMID] and no other thread; a waiter reads this reason
    as "removed", which is neither the timeout status nor the status of a
    normal wake-up. *)
Theorem destroy_wakes_all_removed (event : rtdm_event_t) (sem : rtdm_sem_t)
        (mutex : rtdm_mutex_t) (w : wakeups) :
  info_bits_ok ->
  (pendq (event_synch_base (fst (rtdm_event_destroy event w))) = []
   /\ woken_with XNRMID (pendq (event_synch_base event)) w
                 (snd (rtdm_event_destroy event w)))
  /\ (pendq (sem_synch_base (fst (rtdm_sem_destroy sem w))) = []
      /\ woken_with XNRMID (pendq (sem_synch_base sem)) w
                    (snd (rtdm_sem_destroy sem w)))
  /\ (pendq (mutex_synch_base (fst (rtdm_mutex_destroy mutex w))) = []
      /\ woken_with XNRMID (pendq (mutex_synch_base mutex)) w
                    (snd (rtdm_mutex_destroy mutex w)))
  /\ wake_status XNRMID = WaitRemoved
  /\ wake_status XNRMID <> WaitTimeout
  /\ wake_status XNRMID <> WaitDone.
Proof.
  intros Hok. rewrite (wake_status_removed Hok).
  repeat split; discriminate.
Qed.

(** *** Pulse *)

(** C6.  [rtdm_event_pulse] resumes every thread blocked on the event, with
    an empty reason, and leaves the status word, hence the pending bit, as
    it was.  So when no signal was pending before the pulse, none is
    pending after it, and a thread that waits after the pulse blocks. *)
Theorem rtdm_event_pulse_spec (event : rtdm_event_t) (w : wakeups) (late : Z) :
  let event' := fst (rtdm_event_pulse event w) in
  status (event_synch_base event') = status (event_synch_base event)
  /\ pendq (event_synch_base event') = []
  /\ woken_with 0 (pendq (event_synch_base event)) w
                (snd (rtdm_event_pulse event w))
  /\ (Z.land (status (event_synch_base event)) RTDM_EVENT_PENDING = 0 ->
      snd (rtdm_event_wait event' late) = Blocked
      /\ pendq (event_synch_base (fst (rtdm_event_wait event' late))) = [late]).
Proof.
  cbv zeta. unfold rtdm_event_pulse, __rtdm_synch_flush, woken_with.
  cbn [fst snd event_synch_base status pendq].
  split; [reflexivity|]. split; [reflexivity|]. split; [reflexivity|].
  intros Hclear. unfold rtdm_event_wait.
  cbn [event_synch_base status pendq]. rewrite Hclear.
  split; reflexivity.
Qed.

End Services.

(** Two tasks, 11 and 12, are blocked on each object when it is destroyed;
    the information bits are 1 (timeout), 2 (removed) and 4 (break). *)
Lemma destroy_wakes_all_removed_witness :
  let q := mk_synch 0 [11; 12] in
  info_bits_ok 1 2 4
  /\ snd (rtdm_event_destroy 2 (mk_event q (mk_select [5])) []) = [(11, 2); (12, 2)]
  /\ snd (rtdm_sem_destroy 2 (mk_sem 0 q (mk_select [])) []) = [(11, 2); (12, 2)]
  /\ snd (rtdm_mutex_destroy 2 (mk_mutex q) []) = [(11, 2); (12, 2)]
  /\ wake_status 1 2 4 2 = WaitRemoved.
Proof.
  intros q.
  assert (Hok : info_bits_ok 1 2 4) by (repeat split; discriminate).
  destruct (destroy_wakes_all_removed 1 2 4 (mk_event q (mk_select [5]))
              (mk_sem 0 q (mk_select [])) (mk_mutex q) [] Hok)
    as ((_ & He) & (_ & Hs) & (_ & Hm) & Hr & _).
  split; [exact Hok|]. split; [exact He|]. split; [exact Hs|].
  split; [exact Hm|exact Hr].
Defined.

(** A pulse on an event with one waiter and no pending signal, then a late
    wait; and, for contrast, a wait on an event whose pending bit (here
    bit 0 of the status) is set. *)
Example pulse_then_wait :
  let event := mk_event (mk_synch 0 [11]) (mk_select []) in
  rtdm_event_pulse event [] = (mk_event (mk_synch 0 []) (mk_select []), [(11, 0)])
  /\ snd (rtdm_event_wait 1 (fst (rtdm_event_pulse event [])) 12) = Blocked.
Proof. split; reflexivity. Qed.

Example wait_on_pending :
  rtdm_event_wait 1 (mk_event (mk_synch 1 []) (mk_select [])) 12
  = (mk_event (mk_synch 0 []) (mk_select []), Returned 0).
Proof. reflexivity. Qed.

End Synch.

(** ** Device registration (rtdm_driver.h, lines 451-455 and 541-542) *)

Module Registry.

(** [struct rtdm_dev_reserved], without the list linkage: the count of open
    contexts and the sole context of an exclusive device. *)
Record rtdm_dev_reserved := mk_dev_reserved {
  refcount : Z;
  exclusive_context : option Z
}.

Section Unregister.

(** The reserved area of the device as each poll finds it: between two
    polls other threads open and close contexts, or keep one open while
    its close handler asks for another recall. *)
Variable schedule : nat -> rtdm_dev_reserved.

(** Index of the first poll, from the [n]-th on, that finds no open
    context; [None] when [fuel] further polls do not find one. *)
Fixpoint poll_until_closed (fuel n : nat) : option nat :=
  if refcount (schedule n) =? 0 then Some n
  else match fuel with
       | O => None
       | S fuel => poll_until_closed fuel (S n)
       end.

(** Modelled from the spec: [rtdm_dev_unregister(device, poll_delay)],
    which the header declares and the core defines.  "Destroyed by explicit
    unregistration which must block (with bounded polling) until all open
    contexts have closed": the caller sleeps [poll_delay] milliseconds
    after every poll that finds an open context.  The result is the return
    code and the time slept, or [None] while the call has not returned
    after [fuel] sleeps. *)
Definition rtdm_dev_unregister (poll_delay : Z) (fuel : nat) : option (Z * Z) :=
  match poll_until_closed fuel 0 with
  | Some n => Some (0, Z.of_nat n * poll_delay)
  | None => None
  end.

(** [__rtipc_exit]: [rtdm_dev_unregister(&device, 1000)] *)
Definition __rtipc_exit (fuel : nat) : option (Z * Z) :=
  rtdm_dev_unregister Rtipc.rtipc_exit_poll_delay fuel.

Lemma poll_until_closed_sound (fuel : nat) :
  forall n r, poll_until_closed fuel n = Some r ->
              (n <= r <= n + fuel)%nat
              /\ refcount (schedule r) = 0
              /\ forall m, (n <= m < r)%nat -> refcount (schedule m) <> 0.
Proof.
  induction fuel as [|fuel IH]; intros n r; cbn [poll_until_closed];
    destruct (Z.eqb_spec (refcount (schedule n)) 0) as [Hz|Hz].
  - intros [= <-]. repeat split; try lia; exact Hz.
  - discriminate.
  - intros [= <-]. repeat split; try lia; exact Hz.
  - intros Hr. destruct (IH _ _ Hr) as (Hle & Hzero & Hopen).
    split; [lia|]. split; [exact Hzero|].
    intros m Hm. destruct (Nat.eq_dec m n) as [->|Hne]; [exact Hz|].
    apply Hopen. lia.
Qed.

Lemma poll_until_closed_complete (fuel : nat) :
  forall n r, (n <= r <= n + fuel)%nat -> refcount (schedule r) = 0 ->
              exists r', poll_until_closed fuel n = Some r'.
Proof.
  induction fuel as [|fuel IH]; intros n r Hr Hz; cbn [poll_until_closed];
    destruct (Z.eqb_spec (refcount (schedule n)) 0) as [Hn|Hn];
    try (eexists; reflexivity).
  - assert (r = n) by lia. subst r. contradiction.
  - destruct (Nat.eq_dec r n) as [->|Hne]; [contradiction|].
    apply (IH (S n) r); [lia|exact Hz].
Qed.

Lemma poll_until_closed_blocked (fuel : nat) :
  forall n, (forall m, (n <= m <= n + fuel)%nat -> refcount (schedule m) <> 0) ->
            poll_until_closed fuel n = None.
Proof.
  induction fuel as [|fuel IH]; intros n Hopen; cbn [poll_until_closed];
    destruct (Z.eqb_spec (refcount (schedule n)) 0) as [Hn|Hn];
    try (exfalso; apply (Hopen n); [lia|exact Hn]).
  - reflexivity.
  - apply IH. intros m Hm. apply Hopen. lia.
Qed.

(** C8.  Unregistration does not return while a context of the device is
    open.  If the call returns, it returns at a poll that found the count
    of open contexts at zero, every earlier poll found it non-zero, and the
    caller slept once, for [poll_delay], after each of those.  As long as
    every poll finds an open context, whatever keeps it open, the call has
    not returned.  And once some poll finds the count at zero, the call
    does return, given that many polls. *)
Theorem rtdm_dev_unregister_waits (poll_delay : Z) :
  (forall fuel ret slept,
      rtdm_dev_unregister poll_delay fuel = Some (ret, slept) ->
      exists n, slept = Z.of_nat n * poll_delay
                /\ refcount (schedule n) = 0
                /\ forall m, (m < n)%nat -> refcount (schedule m) <> 0)
  /\ (forall fuel,
         (forall m, (m <= fuel)%nat -> refcount (schedule m) <> 0) ->
         rtdm_dev_unregister poll_delay fuel = None)
  /\ (forall n fuel,
         refcount (schedule n) = 0 -> (n <= fuel)%nat ->
         exists ret slept,
           rtdm_dev_unregister poll_delay fuel = Some (ret, slept)).
Proof.
  unfold rtdm_dev_unregister. split; [|split].
  - intros fuel ret slept.
    destruct (poll_until_closed fuel 0) as [n|] eqn:Hpoll; [|discriminate].
    intros [= <- <-].
    destruct (poll_until_closed_sound fuel 0 n Hpoll) as (_ & Hz & Hopen).
    exists n. split; [reflexivity|]. split; [exact Hz|].
    intros m Hm. apply Hopen. lia.
  - intros fuel Hopen. rewrite poll_until_closed_blocked; [reflexivity|].
    intros m Hm. apply Hopen. lia.
  - intros n fuel Hz Hn.
    destruct (poll_until_closed_complete fuel 0 n ltac:(lia) Hz) as [r ->].
    eexists _, _. reflexivity.
Qed.

End Unregister.

(** The RTIPC module is removed while one socket is open; its close takes
    three polling periods to complete. *)
Definition closing_after (k : nat) (n : nat) : rtdm_dev_reserved :=
  mk_dev_reserved (if (n <? k)%nat then 1 else 0) None.

Example rtipc_exit_waits :
  __rtipc_exit (closing_after 3) 2 = None
  /\ __rtipc_exit (closing_after 3) 10 = Some (0, 3000).
Proof. split; reflexivity. Qed.

End Registry.

(** ** Version codes as numbers (rtdm_driver.h, lines 117-128) *)

Module VersionCodes.
Import Version.

(** Or-ing a value below [2 ^ k] into a multiple of [2 ^ k] adds it. *)
Lemma lor_above (hi lo k : Z) :
  0 <= k -> 0 <= lo < 2 ^ k -> Z.lor (hi * 2 ^ k) lo = hi * 2 ^ k + lo.
Proof.
  intros Hk Hlo.
  assert (Hdisj : Z.land (hi * 2 ^ k) lo = 0).
  { apply Z.bits_inj'. intros n Hn. rewrite Z.land_spec, Z.bits_0.
    destruct (Z.lt_ge_cases n k) as [Hlt|Hge].
    - rewrite Z.mul_pow2_bits_low by lia. reflexivity.
    - rewrite <- (Z.mod_small lo (2 ^ k)) by lia.
      rewrite Z.mod_pow2_bits_high by lia. apply andb_false_r. }
  rewrite (Z.add_nocarry_lxor _ _ Hdisj). symmetry. apply Z.lxor_lor. exact Hdisj.
Qed.

(** The version code as a base-256 number. *)
Lemma RTDM_DRIVER_VER_value (major minor patch : Z) :
  RTDM_DRIVER_VER major minor patch
  = (major mod 256) * 65536 + (minor mod 256) * 256 + patch mod 256.
Proof.
  unfold RTDM_DRIVER_VER. rewrite !land_0xFF, !Z.shiftl_mul_pow2 by lia.
  pose proof (Z.mod_pos_bound major 256 ltac:(lia)).
  pose proof (Z.mod_pos_bound minor 256 ltac:(lia)).
  pose proof (Z.mod_pos_bound patch 256 ltac:(lia)).
  rewrite (lor_above (major mod 256) (minor mod 256 * 2 ^ 8) 16) by lia.
  replace (major mod 256 * 2 ^ 16 + minor mod 256 * 2 ^ 8)
    with ((major mod 256 * 2 ^ 8 + minor mod 256) * 2 ^ 8) by lia.
  rewrite lor_above by lia. lia.
Qed.

(** Rebuilding a code from its three decoded fields keeps its low 24 bits:
    a code that fits in 24 bits, as every code built by [RTDM_DRIVER_VER]
    does, is rebuilt exactly. *)
Theorem RTDM_DRIVER_VER_rebuild (ver : Z) :
  RTDM_DRIVER_VER (RTDM_DRIVER_MAJOR_VER ver) (RTDM_DRIVER_MINOR_VER ver)
                  (RTDM_DRIVER_PATCH_VER ver)
  = ver mod 2 ^ 24
  /\ (0 <= ver < 2 ^ 24 ->
      RTDM_DRIVER_VER (RTDM_DRIVER_MAJOR_VER ver) (RTDM_DRIVER_MINOR_VER ver)
                      (RTDM_DRIVER_PATCH_VER ver) = ver).
Proof.
  assert (Hmod : RTDM_DRIVER_VER (RTDM_DRIVER_MAJOR_VER ver)
                   (RTDM_DRIVER_MINOR_VER ver) (RTDM_DRIVER_PATCH_VER ver)
                 = ver mod 2 ^ 24).
  { rewrite RTDM_DRIVER_VER_value.
    unfold RTDM_DRIVER_MAJOR_VER, RTDM_DRIVER_MINOR_VER, RTDM_DRIVER_PATCH_VER.
    rewrite !land_0xFF, !Z.shiftr_div_pow2 by lia.
    change (2 ^ 16) with 65536. change (2 ^ 8) with 256.
    change (2 ^ 24) with 16777216.
    Z.div_mod_to_equations. lia. }
  split; [exact Hmod|].
  intros Hrange. rewrite Hmod. apply Z.mod_small. exact Hrange.
Qed.

(** With every field a byte, version codes are ordered like the triples
    (major, minor, patch), major first. *)
Theorem RTDM_DRIVER_VER_order (major minor patch major' minor' patch' : Z) :
  0 <= major <= 255 -> 0 <= minor <= 255 -> 0 <= patch <= 255 ->
  0 <= major' <= 255 -> 0 <= minor' <= 255 -> 0 <= patch' <= 255 ->
  (RTDM_DRIVER_VER major minor patch < RTDM_DRIVER_VER major' minor' patch'
   <-> major < major'
       \/ (major = major' /\ (minor < minor'
                              \/ (minor = minor' /\ patch < patch'))))
  /\ (RTDM_DRIVER_VER major minor patch = RTDM_DRIVER_VER major' minor' patch'
      <-> major = major' /\ minor = minor' /\ patch = patch').
Proof.
  intros. rewrite !RTDM_DRIVER_VER_value.
  rewrite !Z.mod_small by lia. lia.
Qed.

Lemma RTDM_DRIVER_VER_order_witness :
  RTDM_DRIVER_VER 1 9 9 < RTDM_DRIVER_VER 2 0 0
  <-> 1 < 2 \/ (1 = 2 /\ (9 < 0 \/ (9 = 0 /\ 9 < 0))).
Proof.
  apply (RTDM_DRIVER_VER_order 1 9 9 2 0 0); lia.
Defined.

End VersionCodes.

(** ** Heap size arithmetic (cobalt/kernel/heap.h, lines 107-154) *)

Module HeapSizes.

Section Sizes.

(** Width of [size_t] and [unsigned long] in bits. *)
Variable BITS_PER_LONG : Z.

(** Arithmetic on [size_t] is modulo [2 ^ BITS_PER_LONG]. *)
Definition size_t (z : Z) : Z := z mod 2 ^ BITS_PER_LONG.

(** [xnheap_align(size, al)]: [((size+al-1)&(~(al-1)))]. *)
Definition xnheap_align (size al : Z) : Z :=
  Z.land (size_t (size + al - 1)) (size_t (Z.lnot (size_t (al - 1)))).

(** [PAGE_SIZE], [sizeof(struct xnextent)] and [sizeof(struct xnpagemap)]. *)
Variables XNHEAP_PAGESZ sizeof_xnextent sizeof_xnpagemap : Z.

(** [xnheap_external_overhead(hsize)] *)
Definition xnheap_external_overhead (hsize : Z) : Z :=
  let pages := size_t (hsize + XNHEAP_PAGESZ - 1) / XNHEAP_PAGESZ in
  xnheap_align (size_t (sizeof_xnextent + size_t (pages * sizeof_xnpagemap)))
               XNHEAP_PAGESZ.

(** [xnheap_internal_overhead(hsize)] *)
Definition xnheap_internal_overhead (hsize : Z) : Z :=
  xnheap_align
    (size_t (size_t (sizeof_xnextent * XNHEAP_PAGESZ)
             + size_t (sizeof_xnpagemap * hsize))
     / size_t (XNHEAP_PAGESZ + sizeof_xnpagemap))
    XNHEAP_PAGESZ.

(** [xnheap_rounded_size(hsize)] *)
Definition xnheap_rounded_size (hsize : Z) : Z :=
  let hsize := if hsize <? size_t (2 * XNHEAP_PAGESZ)
               then size_t (2 * XNHEAP_PAGESZ) else hsize in
  let hsize := size_t (hsize + xnheap_external_overhead hsize) in
  xnheap_align hsize XNHEAP_PAGESZ.

(** *** Alignment *)

(** Masking a [size_t] with the complement of [2 ^ k - 1] clears its [k] low
    bits. *)
Lemma land_lnot_low_mask (x k : Z) :
  0 <= k < BITS_PER_LONG -> 0 <= x < 2 ^ BITS_PER_LONG ->
  Z.land x (size_t (Z.lnot (size_t (2 ^ k - 1)))) = x / 2 ^ k * 2 ^ k.
Proof.
  intros Hk Hx. unfold size_t.
  assert (Hpow : 0 < 2 ^ k < 2 ^ BITS_PER_LONG).
  { split; [apply Z.pow_pos_nonneg; lia|apply Z.pow_lt_mono_r; lia]. }
  rewrite (Z.mod_small (2 ^ k - 1)) by lia.
  replace (2 ^ k - 1) with (Z.ones k) by (rewrite Z.ones_equiv; lia).
  rewrite <- Z.shiftr_div_pow2, <- Z.shiftl_mul_pow2 by lia.
  rewrite <- Z.ldiff_ones_r by lia.
  apply Z.bits_inj'. intros n Hn.
  rewrite Z.land_spec, Z.ldiff_spec.
  destruct (Z.lt_ge_cases n BITS_PER_LONG) as [Hlt|Hge].
  - rewrite Z.mod_pow2_bits_low by lia.
    rewrite Z.lnot_spec by lia. reflexivity.
  - rewrite <- (Z.mod_small x (2 ^ BITS_PER_LONG)) by lia.
    rewrite Z.mod_pow2_bits_high by lia. reflexivity.
Qed.

Lemma xnheap_align_value (size al k : Z) :
  al = 2 ^ k -> 0 <= k < BITS_PER_LONG ->
  xnheap_align size al = size_t (size + al - 1) / al * al.
Proof.
  intros -> Hk. unfold xnheap_align. apply land_lnot_low_mask; [exact Hk|].
  unfold size_t. apply Z.mod_pos_bound. apply Z.pow_pos_nonneg; lia.
Qed.

Lemma xnheap_align_bounds (size al k : Z) :
  al = 2 ^ k -> 0 <= k < BITS_PER_LONG ->
  0 <= size -> size + al - 1 < 2 ^ BITS_PER_LONG ->
  xnheap_align size al mod al = 0
  /\ size <= xnheap_align size al < size + al.
Proof.
  intros Hal Hk Hsize Hroom.
  assert (Hpos : 0 < al) by (subst al; apply Z.pow_pos_nonneg; lia).
  rewrite (xnheap_align_value size al k Hal Hk).
  unfold size_t. rewrite (Z.mod_small (size + al - 1)) by lia.
  split; [apply Z.mod_mul; lia|].
  pose proof (Z.mod_pos_bound (size + al - 1) al Hpos).
  pose proof (Z.div_mod (size + al - 1) al ltac:(lia)). lia.
Qed.

(** For a power-of-two alignment and a size that leaves room for the
    rounding, [xnheap_align] returns the least multiple of the alignment
    that is not below the size. *)
Theorem xnheap_align_rounds_up (size al k : Z) :
  al = 2 ^ k -> 0 <= k < BITS_PER_LONG ->
  0 <= size -> size + al - 1 < 2 ^ BITS_PER_LONG ->
  xnheap_align size al mod al = 0
  /\ size <= xnheap_align size al < size + al
  /\ (forall m, m mod al = 0 -> size <= m -> xnheap_align size al <= m).
Proof.
  intros Hal Hk Hsize Hroom.
  destruct (xnheap_align_bounds size al k Hal Hk Hsize Hroom) as [Hmul Hbounds].
  split; [exact Hmul|]. split; [exact Hbounds|].
  assert (Hpos : 0 < al) by (subst al; apply Z.pow_pos_nonneg; lia).
  intros m Hm Hle.
  rewrite (xnheap_align_value size al k Hal Hk).
  unfold size_t. rewrite (Z.mod_small (size + al - 1)) by lia.
  apply Z.mod_divide in Hm; [|lia]. destruct Hm as [q ->].
  apply Z.mul_le_mono_nonneg_r; [lia|].
  assert ((size + al - 1) / al < q + 1)
    by (apply Z.div_lt_upper_bound; [lia|nia]).
  lia.
Qed.

(** A size that is a multiple of the alignment is returned as it is, so
    aligning twice is the same as aligning once. *)
Theorem xnheap_align_idempotent (size al k : Z) :
  al = 2 ^ k -> 0 <= k < BITS_PER_LONG ->
  0 <= size -> size + al - 1 < 2 ^ BITS_PER_LONG ->
  (size mod al = 0 -> xnheap_align size al = size)
  /\ xnheap_align (xnheap_align size al) al = xnheap_align size al.
Proof.
  intros Hal Hk Hsize Hroom.
  assert (Hpos : 0 < al) by (subst al; apply Z.pow_pos_nonneg; lia).
  assert (Hfix : forall s, 0 <= s -> s + al - 1 < 2 ^ BITS_PER_LONG ->
                           s mod al = 0 -> xnheap_align s al = s).
  { intros s Hs Hr Hm.
    rewrite (xnheap_align_value s al k Hal Hk).
    unfold size_t. rewrite (Z.mod_small (s + al - 1)) by lia.
    apply Z.mod_divide in Hm; [|lia]. destruct Hm as [q ->].
    replace (q * al + al - 1) with (q * al + (al - 1)) by lia.
    rewrite Z.div_add_l by lia. rewrite (Z.div_small (al - 1)) by lia. lia. }
  split; [apply Hfix; assumption|].
  destruct (xnheap_align_bounds size al k Hal Hk Hsize Hroom)
    as (Hmul & Hbounds).
  apply Hfix; [lia| |exact Hmul].
  (* the result is a multiple of [al] below [2 ^ BITS_PER_LONG], itself a
     multiple of [al] *)
  apply Z.mod_divide in Hmul; [|lia]. destruct Hmul as [q Hq].
  assert (Hw : 2 ^ BITS_PER_LONG = 2 ^ (BITS_PER_LONG - k) * al).
  { subst al. rewrite <- Z.pow_add_r by lia. f_equal. lia. }
  rewrite Hq, Hw in *.
  assert (q < 2 ^ (BITS_PER_LONG - k)) by nia.
  nia.
Qed.

(** When [size + al - 1] does not fit in a [size_t], the sum wraps around
    and the result is 0, below the size that was asked for. *)
Theorem xnheap_align_wraps_to_zero (size al k : Z) :
  al = 2 ^ k -> 0 <= k < BITS_PER_LONG ->
  0 <= size < 2 ^ BITS_PER_LONG -> 2 ^ BITS_PER_LONG <= size + al - 1 ->
  xnheap_align size al = 0.
Proof.
  intros Hal Hk Hsize Hover.
  assert (Hpos : 0 < al) by (subst al; apply Z.pow_pos_nonneg; lia).
  assert (Hlt : al < 2 ^ BITS_PER_LONG)
    by (subst al; apply Z.pow_lt_mono_r; lia).
  rewrite (xnheap_align_value size al k Hal Hk). unfold size_t.
  replace ((size + al - 1) mod 2 ^ BITS_PER_LONG)
    with (size + al - 1 - 2 ^ BITS_PER_LONG).
  - rewrite Z.div_small by lia. reflexivity.
  - apply Z.mod_unique with (q := 1); lia.
Qed.

(** *** Rounded heap size *)

(** The heap size passed to the overhead computation: at least two pages. *)
Definition xnheap_min_size (hsize : Z) : Z := Z.max hsize (2 * XNHEAP_PAGESZ).

(** With a power-of-two page size, a page map entry no larger than a page
    and a request small enough for the sums not to wrap:
    [xnheap_external_overhead] is a whole number of pages that holds the
    extent header and one page map entry per page of the heap, and
    [xnheap_rounded_size] is a whole number of pages that holds this
    overhead and, beside it, the requested size and at least two pages. *)
Theorem xnheap_rounded_size_fits (hsize pshift : Z) :
  XNHEAP_PAGESZ = 2 ^ pshift -> 0 <= pshift < BITS_PER_LONG ->
  0 <= sizeof_xnextent -> 0 <= sizeof_xnpagemap <= XNHEAP_PAGESZ ->
  0 <= hsize ->
  2 * hsize + sizeof_xnextent + 7 * XNHEAP_PAGESZ < 2 ^ BITS_PER_LONG ->
  let overhead := xnheap_external_overhead (xnheap_min_size hsize) in
  overhead mod XNHEAP_PAGESZ = 0
  /\ sizeof_xnextent
     + (xnheap_min_size hsize + XNHEAP_PAGESZ - 1) / XNHEAP_PAGESZ * sizeof_xnpagemap
     <= overhead
  /\ xnheap_rounded_size hsize mod XNHEAP_PAGESZ = 0
  /\ hsize + overhead <= xnheap_rounded_size hsize
  /\ 2 * XNHEAP_PAGESZ + overhead <= xnheap_rounded_size hsize
  /\ xnheap_rounded_size hsize < xnheap_min_size hsize + overhead + XNHEAP_PAGESZ.
Proof.
  intros Hpage Hshift He Hm Hh Hroom.
  assert (Hpos : 0 < XNHEAP_PAGESZ)
    by (rewrite Hpage; apply Z.pow_pos_nonneg; lia).
  set (h := xnheap_min_size hsize).
  assert (Hh' : hsize <= h /\ 2 * XNHEAP_PAGESZ <= h
                /\ h <= hsize + 2 * XNHEAP_PAGESZ)
    by (unfold h, xnheap_min_size; lia).
  set (pages := (h + XNHEAP_PAGESZ - 1) / XNHEAP_PAGESZ).
  assert (Hpages : 0 <= pages /\ pages * XNHEAP_PAGESZ <= h + XNHEAP_PAGESZ - 1).
  { unfold pages. split.
    - apply Z.div_pos; lia.
    - pose proof (Z.mul_div_le (h + XNHEAP_PAGESZ - 1) XNHEAP_PAGESZ Hpos). lia. }
  assert (Hmap : 0 <= pages * sizeof_xnpagemap <= h + XNHEAP_PAGESZ - 1) by nia.
  assert (Hovh_eq : xnheap_external_overhead h
                    = xnheap_align (sizeof_xnextent + pages * sizeof_xnpagemap)
                                   XNHEAP_PAGESZ).
  { unfold xnheap_external_overhead, size_t.
    rewrite (Z.mod_small (h + XNHEAP_PAGESZ - 1)) by lia. fold pages.
    rewrite (Z.mod_small (pages * sizeof_xnpagemap)) by lia.
    rewrite (Z.mod_small (sizeof_xnextent + pages * sizeof_xnpagemap)) by lia.
    reflexivity. }
  destruct (xnheap_align_bounds (sizeof_xnextent + pages * sizeof_xnpagemap)
              XNHEAP_PAGESZ pshift Hpage Hshift ltac:(lia) ltac:(lia))
    as (Hovh_mul & Hovh_bounds).
  rewrite <- Hovh_eq in Hovh_mul, Hovh_bounds.
  assert (Hround_eq : xnheap_rounded_size hsize
                      = xnheap_align (h + xnheap_external_overhead h)
                                     XNHEAP_PAGESZ).
  { unfold xnheap_rounded_size, size_t.
    rewrite (Z.mod_small (2 * XNHEAP_PAGESZ)) by lia.
    replace (if hsize <? 2 * XNHEAP_PAGESZ then 2 * XNHEAP_PAGESZ else hsize)
      with h
      by (unfold h, xnheap_min_size;
          destruct (Z.ltb_spec hsize (2 * XNHEAP_PAGESZ)); lia).
    rewrite (Z.mod_small (h + xnheap_external_overhead h)) by lia.
    reflexivity. }
  destruct (xnheap_align_bounds (h + xnheap_external_overhead h)
              XNHEAP_PAGESZ pshift Hpage Hshift ltac:(lia) ltac:(lia))
    as (Hr_mul & Hr_bounds).
  rewrite <- Hround_eq in Hr_mul, Hr_bounds.
  cbv zeta. fold h. fold pages.
  repeat split; try assumption; lia.
Qed.

End Sizes.

Lemma xnheap_align_rounds_up_witness :
  xnheap_align 64 100 16 mod 16 = 0
  /\ 100 <= xnheap_align 64 100 16 < 100 + 16
  /\ (forall m, m mod 16 = 0 -> 100 <= m -> xnheap_align 64 100 16 <= m).
Proof.
  apply (xnheap_align_rounds_up 64 100 16 4); [reflexivity|lia|lia|reflexivity].
Defined.

Lemma xnheap_align_idempotent_witness :
  (96 mod 16 = 0 -> xnheap_align 64 96 16 = 96)
  /\ xnheap_align 64 (xnheap_align 64 100 16) 16 = xnheap_align 64 100 16.
Proof.
  split.
  - apply (xnheap_align_idempotent 64 96 16 4); [reflexivity|lia|lia|reflexivity].
  - apply (xnheap_align_idempotent 64 100 16 4); [reflexivity|lia|lia|reflexivity].
Defined.

Lemma xnheap_align_wraps_to_zero_witness :
  xnheap_align 64 (2 ^ 64 - 5) 16 = 0.
Proof.
  apply (xnheap_align_wraps_to_zero 64 (2 ^ 64 - 5) 16 4); [reflexivity|lia|lia|lia].
Defined.

(** 4096-byte pages on a 64-bit machine, a 48-byte extent header and 4-byte
    page map entries: a request of 10000 bytes. *)
Lemma xnheap_rounded_size_fits_witness :
  xnheap_rounded_size 64 4096 48 4 10000 mod 4096 = 0
  /\ 10000 + xnheap_external_overhead 64 4096 48 4 (xnheap_min_size 4096 10000)
     <= xnheap_rounded_size 64 4096 48 4 10000.
Proof.
  destruct (xnheap_rounded_size_fits 64 4096 48 4 10000 12
              eq_refl ltac:(lia) ltac:(lia) ltac:(lia) ltac:(lia) eq_refl)
    as (_ & _ & Hmul & Hfit & _).
  split; [exact Hmul|exact Hfit].
Defined.

End HeapSizes.

(** ** Counting references (rtdm_driver.h, lines 571-597) *)

Module ContextCount.
Import Context.

Section Counting.

Context {H P : Type}.
Variable CONFIG_XENO_OPT_DEBUG_RTDM : Z.
Variable rtdm_apc : Z.

Local Abbreviation lock := (rtdm_context_lock CONFIG_XENO_OPT_DEBUG_RTDM).
Local Abbreviation unlock := (rtdm_context_unlock CONFIG_XENO_OPT_DEBUG_RTDM rtdm_apc).
Local Abbreviation run_ops := (run CONFIG_XENO_OPT_DEBUG_RTDM rtdm_apc).

Lemma set_close_lock_count_twice (v v' : Z) (c : rtdm_dev_context H P) :
  set_close_lock_count v (set_close_lock_count v' c) = set_close_lock_count v c.
Proof. reflexivity. Qed.

Lemma set_close_lock_count_same (c : rtdm_dev_context H P) :
  set_close_lock_count (close_lock_count c) c = c.
Proof. destruct c. reflexivity. Qed.

Lemma locks_unlocks_bounds (l : list ctx_op) :
  0 <= locks l /\ 0 <= unlocks l /\ locks l + unlocks l <= Z.of_nat (length l).
Proof.
  induction l as [|o l IH]; cbn [locks unlocks length]; [lia|].
  destruct o; lia.
Qed.

(** Taking a reference and dropping it again gives the context back as it
    was; the pair requests finalization only on a context whose count was
    already zero, that is, one that had been finalized before. *)
Theorem rtdm_context_lock_unlock (c : rtdm_dev_context H P) (k : kernel) :
  in_int (close_lock_count c) -> close_lock_count c < INT_MAX ->
  let st := lock c k in
  let st' := unlock (fst st) (snd st) in
  fst st' = c
  /\ (close_lock_count c <> 0 -> apc_requests (snd st') = apc_requests k)
  /\ (close_lock_count c = 0 -> apc_requests (snd st') = rtdm_apc :: apc_requests k).
Proof.
  intros Hint Hroom. cbv zeta.
  rewrite rtdm_context_unlock_eq. unfold rtdm_context_lock, atomic_inc.
  cbn [fst snd set_close_lock_count close_lock_count].
  rewrite (wrap_int_small (close_lock_count c + 1))
    by (unfold in_int, INT_MAX in *; lia).
  replace (close_lock_count c + 1 - 1) with (close_lock_count c) by lia.
  rewrite (wrap_int_small _ Hint).
  split; [destruct c; reflexivity|].
  destruct (Z.eqb_spec (close_lock_count c) 0) as [Hz|Hz]; split; intros Hc;
    try contradiction;
    cbn [rthal_apc_schedule apc_requests];
    rewrite !apc_requests_XENO_ASSERT; reflexivity.
Qed.

(** A run of locks and unlocks whose length the counter can absorb in both
    directions changes the context in its lock count only, which moves by
    the number of locks minus the number of unlocks.  When the context
    starts with more references than the run drops, finalization is never
    requested. *)
Theorem lock_count_balance (l : list ctx_op) :
  forall (c : rtdm_dev_context H P) (k : kernel),
    close_requests l = 0%nat ->
    - 2 ^ 31 <= close_lock_count c - Z.of_nat (length l) ->
    close_lock_count c + Z.of_nat (length l) <= INT_MAX ->
    fst (run_ops l (c, k))
      = set_close_lock_count (close_lock_count c + locks l - unlocks l) c
    /\ (unlocks l < close_lock_count c ->
        apc_requests (snd (run_ops l (c, k))) = apc_requests k).
Proof.
  induction l as [|o l IH]; intros c k Hn Hlow Hhigh.
  - cbn [run locks unlocks fst snd].
    replace (close_lock_count c + 0 - 0) with (close_lock_count c) by lia.
    rewrite set_close_lock_count_same. split; reflexivity.
  - cbn [length] in Hlow, Hhigh. cbn [close_requests] in Hn.
    destruct o; cbn [ctx_op_eqb] in Hn; try discriminate;
      cbn [run step fst snd locks unlocks].
    + (* lock *)
      unfold rtdm_context_lock, atomic_inc.
      rewrite wrap_int_small by (unfold in_int, INT_MAX in *; lia).
      destruct (IH (set_close_lock_count (close_lock_count c + 1) c)
                   (XENO_ASSERT CONFIG_XENO_OPT_DEBUG_RTDM (CONTEXT_IS_LOCKED c) k)
                   Hn) as [Hctx Hapc];
        cbn [set_close_lock_count close_lock_count]; try lia.
      rewrite Hctx, set_close_lock_count_twice.
      cbn [set_close_lock_count close_lock_count].
      split; [f_equal; lia|].
      intros Hheld. rewrite Hapc by (cbn [set_close_lock_count close_lock_count]; lia).
      apply apc_requests_XENO_ASSERT.
    + (* unlock *)
      rewrite rtdm_context_unlock_eq.
      rewrite wrap_int_small by (unfold in_int, INT_MAX in *; lia).
      match goal with
      | |- context [run_ops l (?c1, ?k1)] =>
          destruct (IH c1 k1 Hn) as [Hctx Hapc];
            cbn [set_close_lock_count close_lock_count]; try lia
      end.
      rewrite Hctx, set_close_lock_count_twice.
      cbn [set_close_lock_count close_lock_count].
      split; [f_equal; lia|].
      intros Hheld. pose proof (locks_unlocks_bounds l).
      rewrite Hapc by (cbn [set_close_lock_count close_lock_count]; lia).
      replace (close_lock_count c - 1 =? 0) with false
        by (symmetry; apply Z.eqb_neq; lia).
      apply apc_requests_XENO_ASSERT.
Qed.

(** *** The debug switch *)

Lemma step_debug_independent (d : Z) (o : ctx_op) (c : rtdm_dev_context H P)
      (k k' : kernel) :
  apc_requests k = apc_requests k' ->
  fst (step d rtdm_apc o (c, k)) = fst (step 0 rtdm_apc o (c, k'))
  /\ apc_requests (snd (step d rtdm_apc o (c, k)))
     = apc_requests (snd (step 0 rtdm_apc o (c, k')))
  /\ assert_warnings (snd (step 0 rtdm_apc o (c, k'))) = assert_warnings k'.
Proof.
  intros Hk.
  destruct o; cbn [step fst snd]; unfold request_close;
    rewrite ?rtdm_context_unlock_eq; unfold rtdm_context_lock; cbn [fst snd];
    (split; [reflexivity|]);
    repeat match goal with
           | |- context [if ?b then _ else _] => destruct b
           end;
    cbn [rthal_apc_schedule apc_requests assert_warnings];
    rewrite ?apc_requests_XENO_ASSERT, Hk; split; reflexivity.
Qed.

(** The assertions only observe.  Along any run of locks and unlocks the
    context and the finalization requests are the same whatever the value
    of [CONFIG_XENO_OPT_DEBUG_RTDM], and with the switch at 0 no warning is
    ever logged. *)
Theorem debug_switch_only_logs (d : Z) (l : list ctx_op) :
  forall (c : rtdm_dev_context H P) (k k' : kernel),
    close_requests l = 0%nat ->
    apc_requests k = apc_requests k' ->
    fst (run d rtdm_apc l (c, k)) = fst (run 0 rtdm_apc l (c, k'))
    /\ apc_requests (snd (run d rtdm_apc l (c, k)))
       = apc_requests (snd (run 0 rtdm_apc l (c, k')))
    /\ assert_warnings (snd (run 0 rtdm_apc l (c, k'))) = assert_warnings k'.
Proof.
  induction l as [|o l IH]; intros c k k' Hn Hk.
  - cbn [run fst snd]. repeat split. exact Hk.
  - assert (Hn' : close_requests l = 0%nat).
    { cbn [close_requests] in Hn. destruct (ctx_op_eqb o OpRequestClose); lia. }
    destruct (step_debug_independent d o c k k' Hk) as (Hc & Ha & Hw).
    cbn [run].
    destruct (step d rtdm_apc o (c, k)) as [c1 k1].
    destruct (step 0 rtdm_apc o (c, k')) as [c2 k2].
    cbn [fst snd] in Hc, Ha, Hw. subst c2.
    destruct (IH c1 k1 k2 Hn' Ha) as (Hc' & Ha' & Hw').
    repeat split; congruence.
Qed.

End Counting.

(** A handler takes a second reference, drops it, and drops its first one,
    on a context that the core holds open and that two handlers are using
    (count 3). *)
Lemma rtdm_context_lock_unlock_witness :
  let c := mk_context 0 3 3 (@no_operations unit) tt in
  fst (rtdm_context_unlock 0 7 (fst (rtdm_context_lock 0 c idle_kernel))
                           (snd (rtdm_context_lock 0 c idle_kernel))) = c.
Proof.
  intros c.
  apply (rtdm_context_lock_unlock 0 7 c idle_kernel);
    vm_compute; intuition discriminate.
Defined.

Lemma lock_count_balance_witness :
  let c := mk_context 0 3 3 (@no_operations unit) tt in
  let l := [OpLock; OpUnlock; OpUnlock] in
  fst (run 0 7 l (c, idle_kernel)) = set_close_lock_count 2 c
  /\ apc_requests (snd (run 0 7 l (c, idle_kernel))) = [].
Proof.
  intros c l.
  destruct (lock_count_balance 0 7 l c idle_kernel eq_refl)
    as [Hctx Hapc]; [vm_compute; discriminate|vm_compute; discriminate|].
  split; [exact Hctx|apply Hapc; reflexivity].
Defined.

(** A debug build and a production build on the same unmatched unlock: the
    same context and the same finalization request come out. *)
Lemma debug_switch_only_logs_witness :
  fst (run 1 7 [OpUnlock] (fresh_context, idle_kernel))
  = fst (run 0 7 [OpUnlock] (fresh_context, idle_kernel))
  /\ apc_requests (snd (run 1 7 [OpUnlock] (fresh_context, idle_kernel)))
     = apc_requests (snd (run 0 7 [OpUnlock] (fresh_context, idle_kernel)))
  /\ assert_warnings (snd (run 1 7 [OpUnlock] (fresh_context, idle_kernel))) = 1%nat.
Proof.
  destruct (debug_switch_only_logs 7 1 [OpUnlock] fresh_context
              idle_kernel idle_kernel eq_refl eq_refl) as (Hc & Ha & _).
  split; [exact Hc|]. split; [exact Ha|reflexivity].
Defined.

End ContextCount.

(** ** The three sleep calls (rtdm_driver.h, lines 1111-1129) *)

Module TaskSleep.
Import Task.

Section Calls.

(** The enumerators of [xntmode_t] (nucleus headers) and the nucleus'
    return code for a sleep request. *)
Variables XN_RELATIVE XN_ABSOLUTE XN_REALTIME : Z.
Variable sleep_outcome : Z -> Z -> Z.

(** The deprecated [rtdm_task_sleep_until] is [rtdm_task_sleep_abs] in the
    realtime mode, for every wake-up date and scheduler state.  A relative
    sleep issued by [rtdm_task_sleep] reaches the nucleus with the delay
    converted to the unsigned [xnticks_t]: a delay that is not negative
    arrives as it is, a negative one is not refused and arrives as a timeout
    of at least [2 ^ 63].  The same relative request through
    [rtdm_task_sleep_abs] does not reach the nucleus. *)
Theorem rtdm_task_sleep_until_is_sleep_abs (date delay : Z) (s : sched) :
  rtdm_task_sleep_until XN_REALTIME sleep_outcome date s
    = rtdm_task_sleep_abs XN_ABSOLUTE XN_REALTIME sleep_outcome date
                          (RTDM_TIMERMODE_REALTIME XN_REALTIME) s
  /\ snd (rtdm_task_sleep XN_RELATIVE sleep_outcome delay s)
     = mk_sched ((delay mod 2 ^ 64, XN_RELATIVE) :: sleep_calls s)
  /\ (0 <= delay < 2 ^ 63 ->
      snd (rtdm_task_sleep XN_RELATIVE sleep_outcome delay s)
        = mk_sched ((delay, XN_RELATIVE) :: sleep_calls s))
  /\ (- 2 ^ 63 <= delay < 0 ->
      exists timeout,
        snd (rtdm_task_sleep XN_RELATIVE sleep_outcome delay s)
          = mk_sched ((timeout, XN_RELATIVE) :: sleep_calls s)
        /\ timeout = delay + 2 ^ 64 /\ 2 ^ 63 <= timeout < 2 ^ 64)
  /\ (XN_RELATIVE <> XN_ABSOLUTE -> XN_RELATIVE <> XN_REALTIME ->
      snd (rtdm_task_sleep_abs XN_ABSOLUTE XN_REALTIME sleep_outcome date
                               (RTDM_TIMERMODE_RELATIVE XN_RELATIVE) s) = s).
Proof.
  split; [|split; [|split; [|split]]].
  - unfold rtdm_task_sleep_until, rtdm_task_sleep_abs,
      RTDM_TIMERMODE_REALTIME, RTDM_TIMERMODE_ABSOLUTE.
    rewrite (Z.eqb_refl XN_REALTIME). cbn [negb]. rewrite andb_false_r.
    reflexivity.
  - reflexivity.
  - intros Hd. unfold rtdm_task_sleep, __rtdm_task_sleep, to_xnticks.
    cbn [snd]. rewrite Z.mod_small by lia. reflexivity.
  - intros Hd. exists (delay + 2 ^ 64).
    unfold rtdm_task_sleep, __rtdm_task_sleep, to_xnticks. cbn [snd].
    replace (delay mod 2 ^ 64) with (delay + 2 ^ 64)
      by (apply Z.mod_unique with (q := -1); lia).
    repeat split; lia.
  - intros Ha Hr.
    rewrite rtdm_task_sleep_abs_rejects; [reflexivity| |];
      unfold RTDM_TIMERMODE_RELATIVE, RTDM_TIMERMODE_ABSOLUTE,
        RTDM_TIMERMODE_REALTIME; assumption.
Qed.

End Calls.

End TaskSleep.

(** ** Life of an RTIPC socket (ksrc/drivers/ipc/rtipc.c, lines 59-99) *)

Module RtipcLife.
Import Context Rtipc.

Section Socket.

Variables IPCPROTO_IPC IPCPROTO_XDDP IPCPROTO_IDDP IPCPROTO_MAX : Z.
Variables CONFIG_XENO_DRIVERS_RTIPC_XDDP CONFIG_XENO_DRIVERS_RTIPC_IDDP : bool.
Variable driver : proto_ref -> rtipc_protocol.

Local Abbreviation socket :=
  (rtipc_socket IPCPROTO_IPC IPCPROTO_XDDP IPCPROTO_IDDP IPCPROTO_MAX
                CONFIG_XENO_DRIVERS_RTIPC_XDDP CONFIG_XENO_DRIVERS_RTIPC_IDDP
                driver).
Local Abbreviation close := (rtipc_close driver).
Local Abbreviation slot_of protocol :=
  (protocols_at IPCPROTO_XDDP IPCPROTO_IDDP IPCPROTO_MAX
                CONFIG_XENO_DRIVERS_RTIPC_XDDP CONFIG_XENO_DRIVERS_RTIPC_IDDP
                (effective_protocol IPCPROTO_IPC IPCPROTO_IDDP protocol - 1)).

(** "Default protocol is IDDP": asking for [IPCPROTO_IPC] is asking for
    [IPCPROTO_IDDP], whatever the context, the caller and the heap, and
    whether or not IDDP is compiled in. *)
Theorem rtipc_socket_default_is_iddp (context : rtipc_context)
        (user_info : rtdm_user_info_t) (kheap : xnheap) :
  0 <= IPCPROTO_IPC < IPCPROTO_MAX -> 0 <= IPCPROTO_IDDP < IPCPROTO_MAX ->
  socket context user_info IPCPROTO_IPC kheap
    = socket context user_info IPCPROTO_IDDP kheap.
Proof.
  intros Hipc Hiddp. rewrite !rtipc_socket_accepted by assumption.
  unfold effective_protocol. rewrite Z.eqb_refl.
  destruct (IPCPROTO_IDDP =? IPCPROTO_IPC); reflexivity.
Qed.

Lemma rtipc_socket_runs_handler (context : rtipc_context)
      (user_info : rtdm_user_info_t) (protocol : Z) (kheap : xnheap)
      (pr : proto_ref) :
  0 <= protocol < IPCPROTO_MAX ->
  slot_of protocol = Some (Some pr) ->
  heap_ok kheap ->
  0 < proto_statesz (driver pr) <= usable_mem kheap - ubytes kheap ->
  let kheap1 :=
    mk_heap (<[next_block kheap := proto_statesz (driver pr)]> (blocks kheap))
            (ubytes kheap + proto_statesz (driver pr)) (usable_mem kheap)
            (next_block kheap + proto_statesz (driver pr)) (free_calls kheap) in
  let handled :=
    proto_ops_socket (driver pr) (mk_private (Some pr) (next_block kheap))
                     user_info kheap1 in
  xnmalloc kheap (proto_statesz (driver pr)) = (next_block kheap, kheap1)
  /\ socket context user_info protocol kheap
     = Some (fst (fst handled), set_dev_private (snd (fst handled)) context,
             snd handled).
Proof.
  intros Hp Hslot Hok Hsize. cbv zeta.
  assert (Halloc : xnmalloc kheap (proto_statesz (driver pr))
                   = (next_block kheap,
                      mk_heap (<[next_block kheap := proto_statesz (driver pr)]>
                                 (blocks kheap))
                              (ubytes kheap + proto_statesz (driver pr))
                              (usable_mem kheap)
                              (next_block kheap + proto_statesz (driver pr))
                              (free_calls kheap))).
  { unfold xnmalloc, xnheap_alloc.
    replace (0 <? proto_statesz (driver pr)) with true
      by (symmetry; apply Z.ltb_lt; lia).
    replace (proto_statesz (driver pr) <=? usable_mem kheap - ubytes kheap)
      with true by (symmetry; apply Z.leb_le; lia).
    reflexivity. }
  split; [exact Halloc|].
  rewrite rtipc_socket_accepted by exact Hp. rewrite Hslot, Halloc.
  replace (next_block kheap =? NULL) with false
    by (symmetry; apply Z.eqb_neq; unfold heap_ok, NULL in *; lia).
  destruct (proto_ops_socket _ _ _ _) as [[ret p] kh]. reflexivity.
Qed.

(** When the protocol is compiled in and the heap can serve its state size,
    the protocol's socket handler runs on a private area that names the
    driver and points to a live block of exactly [proto_statesz] bytes, and
    what it returns is what [rtipc_socket] returns.  [rtipc_socket] itself
    releases nothing: if the handler fails and leaves the heap alone, the
    error comes back with the state block still allocated. *)
Theorem rtipc_socket_state_buffer (context : rtipc_context)
        (user_info : rtdm_user_info_t) (protocol : Z) (kheap : xnheap)
        (pr : proto_ref) :
  0 <= protocol < IPCPROTO_MAX ->
  slot_of protocol = Some (Some pr) ->
  heap_ok kheap ->
  0 < proto_statesz (driver pr) <= usable_mem kheap - ubytes kheap ->
  let ptr := next_block kheap in
  let kheap1 := snd (xnmalloc kheap (proto_statesz (driver pr))) in
  let handled :=
    proto_ops_socket (driver pr) (mk_private (Some pr) ptr) user_info kheap1 in
  blocks kheap1 !! ptr = Some (proto_statesz (driver pr))
  /\ socket context user_info protocol kheap
     = Some (fst (fst handled), set_dev_private (snd (fst handled)) context,
             snd handled)
  /\ (snd handled = kheap1 ->
      exists context' kheap',
        socket context user_info protocol kheap
          = Some (fst (fst handled), context', kheap')
        /\ blocks kheap' !! ptr = Some (proto_statesz (driver pr))
        /\ ubytes kheap' = ubytes kheap + proto_statesz (driver pr)
        /\ free_calls kheap' = free_calls kheap).
Proof.
  intros Hp Hslot Hok Hsize. cbv zeta.
  destruct (rtipc_socket_runs_handler context user_info protocol kheap pr
              Hp Hslot Hok Hsize) as [Halloc Hres].
  rewrite Halloc. cbn [snd].
  assert (Hlive : <[next_block kheap := proto_statesz (driver pr)]> (blocks kheap)
                    !! next_block kheap = Some (proto_statesz (driver pr)))
    by apply lookup_insert_eq.
  split; [exact Hlive|]. split; [exact Hres|].
  intros Hquiet. eexists _, _. split; [exact Hres|].
  rewrite Hquiet. cbn [blocks ubytes free_calls].
  split; [exact Hlive|]. split; reflexivity.
Qed.

(** [rtipc_close] releases the state buffer exactly when the protocol's
    close handler returns 0, and then it releases the pointer found in the
    private area after the handler ran.  A handler error is returned as it
    is, with the heap as the handler left it, so the buffer is kept for the
    next call.  On a context whose socket was never created the driver
    pointer is [NULL] and the call is undefined. *)
Theorem rtipc_close_releases_on_success (context : rtipc_context)
        (user_info : rtdm_user_info_t) (kheap : xnheap) :
  (proto (rtdm_context_to_private context) = None ->
   close context user_info kheap = None)
  /\ (forall pr ret p kheap',
         proto (rtdm_context_to_private context) = Some pr ->
         proto_ops_close (driver pr) (rtdm_context_to_private context)
                         user_info kheap = (ret, p, kheap') ->
         (ret <> 0 ->
          close context user_info kheap
            = Some (ret, set_dev_private p context, kheap'))
         /\ (ret = 0 ->
             exists kheap'',
               close context user_info kheap
                 = Some (0, set_dev_private p context, kheap'')
               /\ free_calls kheap'' = state p :: free_calls kheap'
               /\ blocks kheap'' = delete (state p) (blocks kheap'))).
Proof.
  unfold rtipc_close. split.
  - intros ->. reflexivity.
  - intros pr ret p kheap' -> ->. split.
    + intros Hret.
      replace (ret =? 0) with false by (symmetry; apply Z.eqb_neq; exact Hret).
      reflexivity.
    + intros ->. cbn [Z.eqb negb]. unfold xnfree, xnheap_free.
      destruct (blocks kheap' !! state p) eqn:Hlive; eexists;
        (split; [reflexivity|split; [reflexivity|]]); cbn [blocks].
      * reflexivity.
      * symmetry. apply delete_id. exact Hlive.
Qed.

(** A protocol whose socket and close handlers succeed and leave the
    private area and the heap alone: creating a socket and closing it gives
    the heap back with the same live blocks and the same used byte count,
    after one release, of the state block. *)
Theorem rtipc_socket_close_roundtrip (context : rtipc_context)
        (user_info : rtdm_user_info_t) (protocol : Z) (kheap : xnheap)
        (pr : proto_ref) :
  0 <= protocol < IPCPROTO_MAX ->
  slot_of protocol = Some (Some pr) ->
  heap_ok kheap -> blocks kheap !! next_block kheap = None ->
  0 < proto_statesz (driver pr) <= usable_mem kheap - ubytes kheap ->
  (forall p ui h, proto_ops_socket (driver pr) p ui h = (0, p, h)) ->
  (forall p ui h, proto_ops_close (driver pr) p ui h = (0, p, h)) ->
  exists context1 kheap1 kheap2,
    socket context user_info protocol kheap = Some (0, context1, kheap1)
    /\ close context1 user_info kheap1 = Some (0, context1, kheap2)
    /\ blocks kheap2 = blocks kheap
    /\ ubytes kheap2 = ubytes kheap
    /\ free_calls kheap2 = next_block kheap :: free_calls kheap.
Proof.
  intros Hp Hslot Hok Hfresh Hsize Hsock Hclose.
  destruct (rtipc_socket_runs_handler context user_info protocol kheap pr
              Hp Hslot Hok Hsize) as [_ Hres].
  rewrite Hsock in Hres. cbn [fst snd] in Hres.
  eexists _, _, _. split; [exact Hres|].
  unfold rtipc_close, rtdm_context_to_private, set_dev_private.
  cbn [dev_private proto]. rewrite Hclose. cbn [Z.eqb negb state].
  unfold xnfree, xnheap_free. cbn [blocks].
  rewrite lookup_insert_eq.
  split; [reflexivity|].
  cbn [blocks ubytes free_calls].
  split; [|split; [lia|reflexivity]].
  rewrite delete_insert_eq. apply delete_id. exact Hfresh.
Qed.

End Socket.

(** A build with both protocols, the quiet driver with 64 bytes of state and
    an empty heap of 1024 bytes starting at 4096. *)
Lemma rtipc_socket_default_is_iddp_witness :
  rtipc_socket 0 1 2 3 true true (quiet_driver 64) closed_socket None 0
               (empty_heap 4096 1024)
  = rtipc_socket 0 1 2 3 true true (quiet_driver 64) closed_socket None 2
                 (empty_heap 4096 1024).
Proof.
  apply (rtipc_socket_default_is_iddp 0 1 2 3 true true (quiet_driver 64)
           closed_socket None (empty_heap 4096 1024)); lia.
Defined.

Lemma rtipc_socket_state_buffer_witness :
  blocks (snd (xnmalloc (empty_heap 4096 1024) 64)) !! 4096 = Some 64
  /\ rtipc_socket 0 1 2 3 true true (quiet_driver 64) closed_socket None 1
                  (empty_heap 4096 1024)
     = Some (0,
             set_dev_private (mk_private (Some xddp_proto_driver) 4096)
                             closed_socket,
             snd (xnmalloc (empty_heap 4096 1024) 64)).
Proof.
  destruct (rtipc_socket_state_buffer 0 1 2 3 true true (quiet_driver 64)
              closed_socket None 1 (empty_heap 4096 1024) xddp_proto_driver
              ltac:(lia) eq_refl ltac:(unfold heap_ok; cbn; lia)
              ltac:(cbn; lia))
    as (Hlive & Hres & _).
  split; [exact Hlive|exact Hres].
Defined.

Lemma rtipc_socket_close_roundtrip_witness :
  exists context1 kheap1 kheap2,
    rtipc_socket 0 1 2 3 true true (quiet_driver 64) closed_socket None 2
                 (empty_heap 4096 1024) = Some (0, context1, kheap1)
    /\ rtipc_close (quiet_driver 64) context1 None kheap1
       = Some (0, context1, kheap2)
    /\ blocks kheap2 = blocks (empty_heap 4096 1024)
    /\ ubytes kheap2 = ubytes (empty_heap 4096 1024)
    /\ free_calls kheap2 = [4096].
Proof.
  apply (rtipc_socket_close_roundtrip 0 1 2 3 true true (quiet_driver 64)
           closed_socket None 2 (empty_heap 4096 1024) iddp_proto_driver
           ltac:(lia) eq_refl ltac:(unfold heap_ok; cbn; lia) eq_refl
           ltac:(cbn; lia) ltac:(reflexivity) ltac:(reflexivity)).
Defined.

End RtipcLife.

(** ** Module initialisation (ksrc/drivers/ipc/rtipc.c, lines 174-187) *)

Module RtipcInit.
Import Rtipc.

(** What [__rtipc_init] does to the rest of the kernel: the protocols whose
    [proto_init] it called and the registration of the device, most recent
    first. *)
Inductive init_event := InitCalled (pr : proto_ref) | DeviceRegistered.

Section Init.

Variables IPCPROTO_XDDP IPCPROTO_IDDP IPCPROTO_MAX : Z.
Variables CONFIG_XENO_DRIVERS_RTIPC_XDDP CONFIG_XENO_DRIVERS_RTIPC_IDDP : bool.

(** The [proto_init] member of a driver: [None] when it is [NULL], else
    the code the function returns. *)
Variable proto_init : proto_ref -> option Z.

(** The code [rtdm_dev_register(&device)] returns. *)
Variable register_outcome : Z.

Local Abbreviation table :=
  (protocols IPCPROTO_XDDP IPCPROTO_IDDP IPCPROTO_MAX
             CONFIG_XENO_DRIVERS_RTIPC_XDDP CONFIG_XENO_DRIVERS_RTIPC_IDDP).

(** The loop of [__rtipc_init] over the slots that remain: the result is
    the code of the first [proto_init] that fails, if one does. *)
Fixpoint init_protocols (slots : list (option proto_ref)) (log : list init_event)
  : option Z * list init_event :=
  match slots with
  | [] => (None, log)
  | slot :: slots =>
      match slot with
      | Some pr =>
          match proto_init pr with
          | Some ret =>
              if negb (ret =? 0) then (Some ret, InitCalled pr :: log)
              else init_protocols slots (InitCalled pr :: log)
          | None => init_protocols slots log
          end
      | None => init_protocols slots log
      end
  end.

(** [__rtipc_init()] *)
Definition __rtipc_init (log : list init_event) : Z * list init_event :=
  match init_protocols table log with
  | (Some ret, log) => (ret, log)
  | (None, log) => (register_outcome, DeviceRegistered :: log)
  end.

Lemma init_protocols_spec (slots : list (option proto_ref)) :
  forall log,
    ~ In DeviceRegistered log ->
    let res := init_protocols slots log in
    ~ In DeviceRegistered (snd res)
    /\ (forall pr, In (InitCalled pr) (snd res) ->
                   In (InitCalled pr) log
                   \/ (In (Some pr) slots /\ proto_init pr <> None))
    /\ match fst res with
       | None => forall pr r, In (Some pr) slots -> proto_init pr = Some r -> r = 0
       | Some ret => ret <> 0
                     /\ exists pr, In (Some pr) slots /\ proto_init pr = Some ret
                                   /\ In (InitCalled pr) (snd res)
       end.
Proof.
  induction slots as [|slot slots IH]; intros log Hlog; cbn [init_protocols].
  - cbn [fst snd]. split; [exact Hlog|]. split; [intros pr Hpr; left; exact Hpr|].
    intros pr r [].
  - destruct slot as [pr|].
    + destruct (proto_init pr) as [ret|] eqn:Hinit.
      * destruct (Z.eqb_spec ret 0) as [->|Hret]; cbn [negb].
        -- destruct (IH (InitCalled pr :: log)) as (Hreg & Hcalled & Hres).
           { intros [Hd|Hd]; [discriminate|contradiction]. }
           split; [exact Hreg|]. split.
           ++ intros pr' Hin. destruct (Hcalled pr' Hin) as [[He|Hold]|[Hs Hi]].
              ** injection He as <-. right. split; [left; reflexivity|congruence].
              ** left. exact Hold.
              ** right. split; [right; exact Hs|exact Hi].
           ++ destruct (fst (init_protocols slots (InitCalled pr :: log))) as [r|].
              ** destruct Hres as (Hr & pr' & Hs & Hi & Hc).
                 split; [exact Hr|]. exists pr'. split; [right; exact Hs|].
                 split; assumption.
              ** intros pr' r [He|Hs] Hi.
                 --- injection He as <-. congruence.
                 --- apply (Hres pr' r Hs Hi).
        -- cbn [fst snd]. split.
           { intros [Hd|Hd]; [discriminate|contradiction]. }
           split.
           ++ intros pr' [He|Hold].
              ** injection He as <-. right. split; [left; reflexivity|congruence].
              ** left. exact Hold.
           ++ split; [exact Hret|]. exists pr.
              split; [left; reflexivity|]. split; [exact Hinit|left; reflexivity].
      * destruct (IH log Hlog) as (Hreg & Hcalled & Hres).
        split; [exact Hreg|]. split.
        -- intros pr' Hin. destruct (Hcalled pr' Hin) as [Hold|[Hs Hi]].
           ++ left. exact Hold.
           ++ right. split; [right; exact Hs|exact Hi].
        -- destruct (fst (init_protocols slots log)) as [r|].
           ++ destruct Hres as (Hr & pr' & Hs & Hi & Hc).
              split; [exact Hr|]. exists pr'. split; [right; exact Hs|].
              split; assumption.
           ++ intros pr' r [He|Hs] Hi.
              ** injection He as <-. congruence.
              ** apply (Hres pr' r Hs Hi).
    + destruct (IH log Hlog) as (Hreg & Hcalled & Hres).
      split; [exact Hreg|]. split.
      * intros pr' Hin. destruct (Hcalled pr' Hin) as [Hold|[Hs Hi]].
        -- left. exact Hold.
        -- right. split; [right; exact Hs|exact Hi].
      * destruct (fst (init_protocols slots log)) as [r|].
        -- destruct Hres as (Hr & pr' & Hs & Hi & Hc).
           split; [exact Hr|]. exists pr'. split; [right; exact Hs|].
           split; assumption.
        -- intros pr' r [He|Hs] Hi; [discriminate|].
           apply (Hres pr' r Hs Hi).
Qed.

(** Module initialisation, from an empty log.  The device is registered if
    and only if every compiled-in protocol that has a [proto_init] returned
    0 from it; the return value is then the code of [rtdm_dev_register], and
    otherwise the non-zero code of a [proto_init] that was called.  Only
    protocols present in the table and having a [proto_init] are
    initialised.  A return value of 0 therefore means that the device is
    registered and that its registration returned 0. *)
Theorem rtipc_init_registers_after_inits :
  let ret := fst (__rtipc_init []) in
  let log := snd (__rtipc_init []) in
  (In DeviceRegistered log <->
     forall pr r, In (Some pr) table -> proto_init pr = Some r -> r = 0)
  /\ (In DeviceRegistered log -> ret = register_outcome)
  /\ (~ In DeviceRegistered log ->
      ret <> 0 /\ exists pr, In (InitCalled pr) log /\ proto_init pr = Some ret)
  /\ (forall pr, In (InitCalled pr) log ->
                 In (Some pr) table /\ proto_init pr <> None)
  /\ (ret = 0 -> In DeviceRegistered log /\ register_outcome = 0).
Proof.
  cbv zeta. unfold __rtipc_init.
  destruct (init_protocols_spec table [] (fun H => H)) as (Hreg & Hcalled & Hres).
  destruct (init_protocols table []) as [[ret|] log]; cbn [fst snd] in *.
  - destruct Hres as (Hret & pr & Hs & Hi & Hc).
    split; [split|].
    + intros Hd. contradiction.
    + intros Hall. exfalso. apply Hret. apply (Hall pr ret Hs Hi).
    + split; [intros Hd; contradiction|]. split.
      * intros _. split; [exact Hret|]. exists pr. split; assumption.
      * split.
        -- intros pr' Hin. destruct (Hcalled pr' Hin) as [[]|Hok]. exact Hok.
        -- intros Hz. contradiction.
  - split; [split|].
    + intros _. exact Hres.
    + intros _. left. reflexivity.
    + split; [reflexivity|]. split.
      * intros Hno. exfalso. apply Hno. left. reflexivity.
      * split.
        -- intros pr' [Hd|Hin]; [discriminate|].
           destruct (Hcalled pr' Hin) as [[]|Hok]. exact Hok.
        -- intros Hz. split; [left; reflexivity|exact Hz].
Qed.

End Init.

Example rtipc_init_second_fails :
  __rtipc_init 1 2 3 true true
               (fun pr => match pr with
                          | xddp_proto_driver => Some 0
                          | iddp_proto_driver => Some (- ENOMEM)
                          end) 0 []
  = (- ENOMEM, [InitCalled iddp_proto_driver; InitCalled xddp_proto_driver]).
Proof. reflexivity. Qed.

End RtipcInit.

(** ** Copying arguments in and out (rtdm_driver.h, lines 1300-1337;
       ksrc/drivers/ipc/rtipc.c, lines 35-57) *)

Module UserCopy.
Import Rtipc.

Section Copy.

(** The memory the copies act on, and the services of the architecture
    layer: the two access checks, the two user copies, which return the
    number of bytes they could not copy, and [memcpy]. *)
Variable mem : Type.
Variables access_rok access_wok : Z -> Z -> bool.
Variables __xn_copy_from_user __xn_copy_to_user : Z -> Z -> Z -> mem -> Z * mem.
Variable memcpy : Z -> Z -> Z -> mem -> mem.

(** [rtdm_copy_from_user]: [__xn_copy_from_user(dst, src, size) ? -EFAULT : 0] *)
Definition rtdm_copy_from_user (user_info : rtdm_user_info_t)
           (dst src size : Z) (m : mem) : Z * mem :=
  let '(rest, m) := __xn_copy_from_user dst src size m in
  (if negb (rest =? 0) then - EFAULT else 0, m).

(** [rtdm_safe_copy_from_user]:
    [(!access_rok(src, size) || __xn_copy_from_user(dst, src, size))
       ? -EFAULT : 0]; the copy is not evaluated when the check fails. *)
Definition rtdm_safe_copy_from_user (user_info : rtdm_user_info_t)
           (dst src size : Z) (m : mem) : Z * mem :=
  if negb (access_rok src size) then (- EFAULT, m)
  else
    let '(rest, m) := __xn_copy_from_user dst src size m in
    (if negb (rest =? 0) then - EFAULT else 0, m).

(** [rtdm_copy_to_user] *)
Definition rtdm_copy_to_user (user_info : rtdm_user_info_t)
           (dst src size : Z) (m : mem) : Z * mem :=
  let '(rest, m) := __xn_copy_to_user dst src size m in
  (if negb (rest =? 0) then - EFAULT else 0, m).

(** [rtdm_safe_copy_to_user] *)
Definition rtdm_safe_copy_to_user (user_info : rtdm_user_info_t)
           (dst src size : Z) (m : mem) : Z * mem :=
  if negb (access_wok dst size) then (- EFAULT, m)
  else
    let '(rest, m) := __xn_copy_to_user dst src size m in
    (if negb (rest =? 0) then - EFAULT else 0, m).

(** [rtipc_get_arg(user_info, dst, src, len)] *)
Definition rtipc_get_arg (user_info : rtdm_user_info_t) (dst src len : Z)
           (m : mem) : Z * mem :=
  match user_info with
  | Some _ =>
      let '(ret, m) := rtdm_safe_copy_from_user user_info dst src len m in
      if negb (ret =? 0) then (- EFAULT, m) else (0, m)
  | None => (0, memcpy dst src len m)
  end.

(** [rtipc_put_arg(user_info, dst, src, len)] *)
Definition rtipc_put_arg (user_info : rtdm_user_info_t) (dst src len : Z)
           (m : mem) : Z * mem :=
  match user_info with
  | Some _ =>
      let '(ret, m) := rtdm_safe_copy_to_user user_info dst src len m in
      if negb (ret =? 0) then (- EFAULT, m) else (0, m)
  | None => (0, memcpy dst src len m)
  end.

(** The checked copies differ from the unchecked ones only where the access
    check fails: there they return [-EFAULT] without touching memory, and
    everywhere else they are the unchecked copy.  All four return 0 or
    [-EFAULT]. *)
Theorem rtdm_safe_copy_checks_first (user_info : rtdm_user_info_t)
        (dst src size : Z) (m : mem) :
  (access_rok src size = false ->
   rtdm_safe_copy_from_user user_info dst src size m = (- EFAULT, m))
  /\ (access_rok src size = true ->
      rtdm_safe_copy_from_user user_info dst src size m
        = rtdm_copy_from_user user_info dst src size m)
  /\ (access_wok dst size = false ->
      rtdm_safe_copy_to_user user_info dst src size m = (- EFAULT, m))
  /\ (access_wok dst size = true ->
      rtdm_safe_copy_to_user user_info dst src size m
        = rtdm_copy_to_user user_info dst src size m)
  /\ (forall ret,
         In ret [fst (rtdm_copy_from_user user_info dst src size m);
                 fst (rtdm_safe_copy_from_user user_info dst src size m);
                 fst (rtdm_copy_to_user user_info dst src size m);
                 fst (rtdm_safe_copy_to_user user_info dst src size m)] ->
         ret = 0 \/ ret = - EFAULT).
Proof.
  unfold rtdm_safe_copy_from_user, rtdm_safe_copy_to_user,
    rtdm_copy_from_user, rtdm_copy_to_user.
  split; [intros ->; reflexivity|]. split; [intros ->; reflexivity|].
  split; [intros ->; reflexivity|]. split; [intros ->; reflexivity|].
  destruct (access_rok src size), (access_wok dst size);
    destruct (__xn_copy_from_user dst src size m) as [l1 m1];
    destruct (__xn_copy_to_user dst src size m) as [l2 m2];
    cbn [negb fst];
    destruct (l1 =? 0), (l2 =? 0); cbn [negb];
    intros ret Hin; cbn [In] in Hin;
    repeat (destruct Hin as [<-|Hin]; [auto|]); contradiction.
Qed.

(** [rtipc_get_arg] and [rtipc_put_arg] return 0 or [-EFAULT].  For a
    kernel caller they always return 0 and the memory is the one [memcpy]
    leaves, whatever the access checks say.  For a user caller they return
    0 exactly when the access check passes and the user copy leaves no byte
    behind, and a failed check leaves memory untouched. *)
Theorem rtipc_get_put_arg_spec (user_info : rtdm_user_info_t)
        (dst src len : Z) (m : mem) :
  (fst (rtipc_get_arg user_info dst src len m) = 0
   \/ fst (rtipc_get_arg user_info dst src len m) = - EFAULT)
  /\ (fst (rtipc_put_arg user_info dst src len m) = 0
      \/ fst (rtipc_put_arg user_info dst src len m) = - EFAULT)
  /\ (user_info = None ->
      rtipc_get_arg user_info dst src len m = (0, memcpy dst src len m)
      /\ rtipc_put_arg user_info dst src len m = (0, memcpy dst src len m))
  /\ (user_info <> None ->
      (fst (rtipc_get_arg user_info dst src len m) = 0 <->
         access_rok src len = true
         /\ fst (__xn_copy_from_user dst src len m) = 0)
      /\ (fst (rtipc_put_arg user_info dst src len m) = 0 <->
            access_wok dst len = true
            /\ fst (__xn_copy_to_user dst src len m) = 0)
      /\ (access_rok src len = false ->
          rtipc_get_arg user_info dst src len m = (- EFAULT, m))
      /\ (access_wok dst len = false ->
          rtipc_put_arg user_info dst src len m = (- EFAULT, m))).
Proof.
  unfold rtipc_get_arg, rtipc_put_arg, rtdm_safe_copy_from_user,
    rtdm_safe_copy_to_user.
  destruct user_info as [u|].
  - destruct (access_rok src len), (access_wok dst len);
      destruct (__xn_copy_from_user dst src len m) as [l1 m1];
      destruct (__xn_copy_to_user dst src len m) as [l2 m2];
      cbn [negb fst];
      destruct (Z.eqb_spec l1 0), (Z.eqb_spec l2 0); cbn [negb Z.eqb fst];
      (split; [auto|]); (split; [auto|]); (split; [discriminate|]);
      intros _; unfold EFAULT; cbn [Z.opp Z.eqb negb fst];
      repeat split; intros; try tauto; try discriminate; intuition congruence.
  - cbn [fst]. split; [auto|]. split; [auto|]. split; [auto|].
    intros Hu. contradiction.
Qed.

End Copy.

End UserCopy.
